(** * ModelPlane virtual trackball: [modelplane/gfx/trackball.py]

    A shallow embedding of the vector and quaternion helpers and of the
    [Trackball] class, and the properties of the specification proved (or
    refuted) against it.

    Numbers.  Python's [float] is modelled by the real numbers [R]: every
    arithmetic operation is the exact one, so rounding, overflow and the
    sign of zero are outside the model, and a decimal literal of the source
    denotes its exact decimal value.  Python's [int] fields (the drag
    counter, the viewport) are [Z].

    Where the code tests a computed number for zero the exact model and the
    machine can part: the squared length of a short vector underflows to
    0.0 although the vector is not zero.  [Module Binary64] therefore holds
    the length and normalization helpers a second time over the machine's
    binary64 numbers, where they are evaluated as the code evaluates them;
    statements about a length of one are made in the exact model for
    squared lengths between [1e-300] and [1e300], where the two agree up to
    rounding.

    Exceptions.  The operations of the source that can raise do so here:
    [/] raises [ZeroDivisionError] on a zero divisor, [math.sqrt] and
    [math.asin] raise [ValueError] outside their domain.  A computation that
    can raise returns a [result]; [try: ... except ZeroDivisionError: ...]
    is [try_except]. *)

From Stdlib Require Floats.
From Stdlib Require Import Reals Lra Lia ZArith List Bool Psatz.
From Stdlib Require Import RNsatz.
Import ListNotations.
Local Open Scope R_scope.

(** ** Python exceptions and the error monad *)

Inductive exn : Type :=
| ZeroDivisionError
| ValueError.

Definition exn_eqb (a b : exn) : bool :=
  match a, b with
  | ZeroDivisionError, ZeroDivisionError => true
  | ValueError, ValueError => true
  | _, _ => false
  end.

Inductive result (A : Type) : Type :=
| Ok (a : A)
| Raise (e : exn).

Arguments Ok {A} a.
Arguments Raise {A} e.

Definition bind {A B : Type} (c : result A) (k : A -> result B) : result B :=
  match c with
  | Ok a => k a
  | Raise e => Raise e
  end.

Notation "x <- c ;; k" := (bind c (fun x => k))
  (at level 61, c at next level, right associativity).

(** [try: body  except e: handler]: only the named exception is caught. *)
Definition try_except {A : Type} (body : result A) (e : exn)
    (handler : result A) : result A :=
  match body with
  | Ok a => Ok a
  | Raise e' => if exn_eqb e' e then handler else Raise e'
  end.

Definition returns {A : Type} (c : result A) : Prop := exists a, c = Ok a.

(** ** The numeric primitives of Python used by the module *)

Definition Rlt_b (a b : R) : bool := if Rlt_dec a b then true else false.
Definition Rgt_b (a b : R) : bool := if Rgt_dec a b then true else false.
Definition Req_b (a b : R) : bool := if Req_dec_T a b then true else false.

(** [not x] for a number: true exactly when [x == 0]. *)
Definition py_not (x : R) : bool := Req_b x 0.

(** [a / b] *)
Definition truediv (a b : R) : result R :=
  if Req_b b 0 then Raise ZeroDivisionError else Ok (a / b).

(** [math.sqrt(x)] *)
Definition math_sqrt (x : R) : result R :=
  if Rlt_b x 0 then Raise ValueError else Ok (sqrt x).

(** [math.asin(x)] *)
Definition math_asin (x : R) : result R :=
  if Rlt_b x (-1) then Raise ValueError
  else if Rgt_b x 1 then Raise ValueError
  else Ok (asin x).

(** [math.fmod(x, y)]: the remainder with the sign of [x], that is
    [x - y * trunc(x / y)]. *)
Definition Rtrunc (x : R) : Z :=
  if Rlt_b x 0 then (- Int_part (- x))%Z else Int_part x.

Definition math_fmod (x y : R) : result R :=
  if Req_b y 0 then Raise ValueError else Ok (x - y * IZR (Rtrunc (x / y))).

(** ** Vectors and quaternions

    The source keeps both in Python lists, of length three and four.  The
    vector helpers read indices 0 to 2 only and are also applied to
    quaternions ([_v_mul(q1, q2[3])]): [vec_of] is that reading, and
    [append] is [list.append] on a three-element list. *)

Record vec3 : Type := V3 { v_0 : R; v_1 : R; v_2 : R }.
Record quat : Type := Q4 { q_0 : R; q_1 : R; q_2 : R; q_3 : R }.

Definition vec_of (q : quat) : vec3 := V3 (q_0 q) (q_1 q) (q_2 q).
Definition append (v : vec3) (w : R) : quat := Q4 (v_0 v) (v_1 v) (v_2 v) w.

(** [q[2] = x] *)
Definition set_q_2 (q : quat) (x : R) : quat := Q4 (q_0 q) (q_1 q) x (q_3 q).

Definition _v_add (v1 v2 : vec3) : vec3 :=
  V3 (v_0 v1 + v_0 v2) (v_1 v1 + v_1 v2) (v_2 v1 + v_2 v2).

Definition _v_sub (v1 v2 : vec3) : vec3 :=
  V3 (v_0 v1 - v_0 v2) (v_1 v1 - v_1 v2) (v_2 v1 - v_2 v2).

Definition _v_mul (v : vec3) (s : R) : vec3 :=
  V3 (v_0 v * s) (v_1 v * s) (v_2 v * s).

Definition _v_dot (v1 v2 : vec3) : R :=
  v_0 v1 * v_0 v2 + v_1 v1 * v_1 v2 + v_2 v1 * v_2 v2.

Definition _v_cross (v1 v2 : vec3) : vec3 :=
  V3 (v_1 v1 * v_2 v2 - v_2 v1 * v_1 v2)
     (v_2 v1 * v_0 v2 - v_0 v1 * v_2 v2)
     (v_0 v1 * v_1 v2 - v_1 v1 * v_0 v2).

Definition _v_length (v : vec3) : result R := math_sqrt (_v_dot v v).

Definition _v_normalize (v : vec3) : result vec3 :=
  try_except
    (l <- _v_length v ;;
     s <- truediv 1 l ;;
     Ok (_v_mul v s))
    ZeroDivisionError
    (Ok v).

Definition _q_add (q1 q2 : quat) : quat :=
  let t1 := _v_mul (vec_of q1) (q_3 q2) in
  let t2 := _v_mul (vec_of q2) (q_3 q1) in
  let t3 := _v_cross (vec_of q2) (vec_of q1) in
  let tf := _v_add t1 t2 in
  let tf := _v_add t3 tf in
  append tf (q_3 q1 * q_3 q2 - _v_dot (vec_of q1) (vec_of q2)).

Definition _q_mul (q : quat) (s : R) : quat :=
  Q4 (q_0 q * s) (q_1 q * s) (q_2 q * s) (q_3 q * s).

Definition _q_dot (q1 q2 : quat) : R :=
  q_0 q1 * q_0 q2 + q_1 q1 * q_1 q2 + q_2 q1 * q_2 q2 + q_3 q1 * q_3 q2.

Definition _q_length (q : quat) : result R := math_sqrt (_q_dot q q).

Definition _q_normalize (q : quat) : result quat :=
  try_except
    (l <- _q_length q ;;
     s <- truediv 1 l ;;
     Ok (_q_mul q s))
    ZeroDivisionError
    (Ok q).

Definition _q_from_axis_angle (v : vec3) (phi : R) : result quat :=
  n <- _v_normalize v ;;
  let q := _v_mul n (sin (phi / 2)) in
  Ok (append q (cos (phi / 2))).

(** [m[i] = x] on a list; the indices of the source are all below 16. *)
Fixpoint list_set (i : nat) (x : R) (m : list R) : list R :=
  match m, i with
  | [], _ => []
  | _ :: t, O => x :: t
  | h :: t, S j => h :: list_set j x t
  end.

Definition _q_rotmatrix (q : quat) : list R :=
  let m := repeat 0 16 in
  let m := list_set (0*4+0) (1 - 2 * (q_1 q * q_1 q + q_2 q * q_2 q)) m in
  let m := list_set (0*4+1) (2 * (q_0 q * q_1 q - q_2 q * q_3 q)) m in
  let m := list_set (0*4+2) (2 * (q_2 q * q_0 q + q_1 q * q_3 q)) m in
  let m := list_set (0*4+3) 0 m in
  let m := list_set (1*4+0) (2 * (q_0 q * q_1 q + q_2 q * q_3 q)) m in
  let m := list_set (1*4+1) (1 - 2 * (q_2 q * q_2 q + q_0 q * q_0 q)) m in
  let m := list_set (1*4+2) (2 * (q_1 q * q_2 q - q_0 q * q_3 q)) m in
  let m := list_set (1*4+3) 0 m in
  let m := list_set (2*4+0) (2 * (q_2 q * q_0 q - q_1 q * q_3 q)) m in
  let m := list_set (2*4+1) (2 * (q_1 q * q_2 q + q_0 q * q_3 q)) m in
  let m := list_set (2*4+2) (1 - 2 * (q_1 q * q_1 q + q_0 q * q_0 q)) m in
  let m := list_set (3*4+3) 1 m in
  m.

(** ** The length and normalization helpers in binary64

    The same functions over the machine's numbers, operation by operation
    in the order Python evaluates them.  Division raises on a divisor that
    compares equal to zero (0.0 or -0.0), [math.sqrt] on an argument below
    zero. *)

Module Binary64.
Import PrimFloat.
Local Open Scope float_scope.

Record vec3 : Type := V3 { v_0 : float; v_1 : float; v_2 : float }.
Record quat : Type :=
  Q4 { q_0 : float; q_1 : float; q_2 : float; q_3 : float }.

Definition truediv (a b : float) : result float :=
  if b =? 0 then Raise ZeroDivisionError else Ok (a / b).

Definition math_sqrt (x : float) : result float :=
  if x <? 0 then Raise ValueError else Ok (sqrt x).

Definition _v_mul (v : vec3) (s : float) : vec3 :=
  V3 (v_0 v * s) (v_1 v * s) (v_2 v * s).

Definition _v_dot (v1 v2 : vec3) : float :=
  v_0 v1 * v_0 v2 + v_1 v1 * v_1 v2 + v_2 v1 * v_2 v2.

Definition _v_length (v : vec3) : result float := math_sqrt (_v_dot v v).

Definition _v_normalize (v : vec3) : result vec3 :=
  try_except
    (l <- _v_length v ;;
     s <- truediv 1 l ;;
     Ok (_v_mul v s))
    ZeroDivisionError
    (Ok v).

Definition _q_mul (q : quat) (s : float) : quat :=
  Q4 (q_0 q * s) (q_1 q * s) (q_2 q * s) (q_3 q * s).

Definition _q_dot (q1 q2 : quat) : float :=
  q_0 q1 * q_0 q2 + q_1 q1 * q_1 q2 + q_2 q1 * q_2 q2 + q_3 q1 * q_3 q2.

Definition _q_length (q : quat) : result float := math_sqrt (_q_dot q q).

Definition _q_normalize (q : quat) : result quat :=
  try_except
    (l <- _q_length q ;;
     s <- truediv 1 l ;;
     Ok (_q_mul q s))
    ZeroDivisionError
    (Ok q).

End Binary64.

(** ** The [Trackball] class

    [gl.glGetIntegerv(gl.GL_VIEWPORT)] is the only input the class takes
    from the graphics library: four integers [x, y, width, height], passed
    here as an argument of the methods that query it.  The [GLfloat] array
    built from the matrix holds the same sixteen numbers.  [push] and [pop]
    only issue graphics calls and leave the object as it is, and [__str__]
    and [__repr__] format what the [phi], [theta] and [zoom] properties
    return; they are not modelled.

    A method that mutates the object returns the new object.  Every
    [Raise] below happens before the first assignment of its method, or in
    [_q_normalize], which is shown never to raise: on an exception the
    object is as it was on entry. *)

Record Viewport : Type :=
  { vp_0 : Z; vp_1 : Z; vp_2 : Z; vp_3 : Z }.



Module Trackball.

Record t : Type := Build
  { _rotation : quat;
    _zoom : R;
    _distance : R;
    _count : Z;
    _matrix : option (list R);
    _RENORMCOUNT : Z;
    _TRACKBALLSIZE : R;
    _theta : R;
    _phi : R;
    _x : R;
    _y : R }.

(** Attribute assignment [self._f = v]. *)
Definition with_rotation (self : t) (v : quat) : t :=
  Build v (_zoom self) (_distance self) (_count self) (_matrix self)
        (_RENORMCOUNT self) (_TRACKBALLSIZE self) (_theta self) (_phi self)
        (_x self) (_y self).
Definition with_zoom (self : t) (v : R) : t :=
  Build (_rotation self) v (_distance self) (_count self) (_matrix self)
        (_RENORMCOUNT self) (_TRACKBALLSIZE self) (_theta self) (_phi self)
        (_x self) (_y self).
Definition with_distance (self : t) (v : R) : t :=
  Build (_rotation self) (_zoom self) v (_count self) (_matrix self)
        (_RENORMCOUNT self) (_TRACKBALLSIZE self) (_theta self) (_phi self)
        (_x self) (_y self).
Definition with_count (self : t) (v : Z) : t :=
  Build (_rotation self) (_zoom self) (_distance self) v (_matrix self)
        (_RENORMCOUNT self) (_TRACKBALLSIZE self) (_theta self) (_phi self)
        (_x self) (_y self).
Definition with_matrix (self : t) (v : option (list R)) : t :=
  Build (_rotation self) (_zoom self) (_distance self) (_count self) v
        (_RENORMCOUNT self) (_TRACKBALLSIZE self) (_theta self) (_phi self)
        (_x self) (_y self).
Definition with_theta (self : t) (v : R) : t :=
  Build (_rotation self) (_zoom self) (_distance self) (_count self)
        (_matrix self) (_RENORMCOUNT self) (_TRACKBALLSIZE self) v
        (_phi self) (_x self) (_y self).
Definition with_phi (self : t) (v : R) : t :=
  Build (_rotation self) (_zoom self) (_distance self) (_count self)
        (_matrix self) (_RENORMCOUNT self) (_TRACKBALLSIZE self)
        (_theta self) v (_x self) (_y self).
Definition with_x (self : t) (v : R) : t :=
  Build (_rotation self) (_zoom self) (_distance self) (_count self)
        (_matrix self) (_RENORMCOUNT self) (_TRACKBALLSIZE self)
        (_theta self) (_phi self) v (_y self).
Definition with_y (self : t) (v : R) : t :=
  Build (_rotation self) (_zoom self) (_distance self) (_count self)
        (_matrix self) (_RENORMCOUNT self) (_TRACKBALLSIZE self)
        (_theta self) (_phi self) (_x self) v.

Definition _set_orientation (self : t) (theta phi : R) : t :=
  let self := with_theta self theta in
  let self := with_phi self phi in
  let angle := _theta self * (PI / 180) in
  let sine := sin (0.5 * angle) in
  let xrot := Q4 (1 * sine) 0 0 (cos (0.5 * angle)) in
  let angle := _phi self * (PI / 180) in
  let sine := sin (0.5 * angle) in
  let zrot := Q4 0 0 sine (cos (0.5 * angle)) in
  let self := with_rotation self (_q_add xrot zrot) in
  let m := _q_rotmatrix (_rotation self) in
  with_matrix self (Some m).

(** [Trackball(theta, phi, zoom, distance)]; the defaults of the source are
    [theta=0, phi=0, zoom=1, distance=3]. *)
Definition __init__ (theta phi zoom distance : R) : t :=
  let self :=
    {| _rotation := Q4 0 0 0 1;
       _zoom := zoom;
       _distance := distance;
       _count := 0;
       _matrix := None;
       _RENORMCOUNT := 97;
       _TRACKBALLSIZE := 0.8;
       _theta := theta;
       _phi := phi;
       _x := 0;
       _y := 0 |} in
  let self := _set_orientation self theta phi in
  let self := with_x self 0 in
  with_y self 0.

(** The two literals of [_project]. *)
Definition M_SQRT1_2 : R := 0.70710678118654752440.
Definition M_SQRT2 : R := 1.41421356237309504880.

Definition _project (r x y : R) : result R :=
  d <- math_sqrt (x * x + y * y) ;;
  if Rlt_b d (r * M_SQRT1_2) then
    math_sqrt (r * r - d * d)
  else
    let t := r / M_SQRT2 in
    truediv (t * t) d.

Definition _rotate (self : t) (x y dx dy : R) : result quat :=
  if (py_not dx && py_not dy)%bool then Ok (Q4 0 0 0 1)
  else
    lz <- _project (_TRACKBALLSIZE self) x y ;;
    let last := V3 x y lz in
    nz <- _project (_TRACKBALLSIZE self) (x + dx) (y + dy) ;;
    let new := V3 (x + dx) (y + dy) nz in
    let a := _v_cross new last in
    let d := _v_sub last new in
    l <- _v_length d ;;
    t <- truediv l (2 * _TRACKBALLSIZE self) ;;
    let t := if Rgt_b t 1 then 1 else t in
    let t := if Rlt_b t (-1) then -1 else t in
    s <- math_asin t ;;
    let phi := 2 * s in
    _q_from_axis_angle a phi.

Definition drag_to (viewport : Viewport) (self : t) (x y dx dy : R)
    : result t :=
  let width := IZR (vp_2 viewport) in
  let height := IZR (vp_3 viewport) in
  x <- truediv (x * 2 - width) width ;;
  dx <- truediv (2 * dx) width ;;
  y <- truediv (y * 2 - height) height ;;
  dy <- truediv (2 * dy) height ;;
  q <- _rotate self x y dx dy ;;
  let self := with_rotation self (_q_add q (_rotation self)) in
  let self := with_rotation self (set_q_2 (_rotation self) 0) in
  let self := with_count self (_count self + 1) in
  self <- (if (_count self >? _RENORMCOUNT self)%Z then
             n <- _q_normalize (_rotation self) ;;
             let self := with_rotation self n in
             Ok (with_count self 0)
           else Ok self) ;;
  let m := _q_rotmatrix (_rotation self) in
  Ok (with_matrix self (Some m)).

(** The [zoom] property. *)
Definition zoom (self : t) : R := _zoom self.

Definition zoom_set (self : t) (zoom : R) : t :=
  let self := with_zoom self zoom in
  let self := if Rlt_b (_zoom self) 0.25 then with_zoom self 0.25 else self in
  let self := if Rgt_b (_zoom self) 10 then with_zoom self 10 else self in
  self.

Definition zoom_to (viewport : Viewport) (self : t) (x y dx dy : R)
    : result t :=
  let height := IZR (vp_3 viewport) in
  q <- truediv (5 * dy) height ;;
  Ok (zoom_set self (zoom self - q)).

Definition pan_to (self : t) (x y dx dy : R) : t :=
  let self := with_x self (_x self + dx * 0.1) in
  with_y self (_y self + dy * 0.1).

Definition matrix (self : t) : option (list R) := _matrix self.

(** The [distance] property. *)
Definition distance (self : t) : R := _distance self.

Definition distance_set (self : t) (distance : R) : t :=
  let self := with_distance self distance in
  let self := if Rlt_b (_distance self) 1 then with_distance self 1 else self in
  self.

Definition _get_orientation (self : t) : result (R * R) :=
  let '(Q4 q0 q1 q2 q3) := _rotation self in
  a <- truediv (2 * (q0 * q1 + q2 * q3)) (1 - 2 * (q1 * q1 + q2 * q2)) ;;
  let ax := atan a * 180 / PI in
  b <- truediv (2 * (q0 * q3 + q1 * q2)) (1 - 2 * (q2 * q2 + q3 * q3)) ;;
  let az := atan b * 180 / PI in
  Ok (- az, ax).

(** The [theta] and [phi] properties; the getters store the computed
    angles and return one of them together with the updated object. *)
Definition theta (self : t) : result (R * t) :=
  o <- _get_orientation self ;;
  let self := with_phi (with_theta self (fst o)) (snd o) in
  Ok (_theta self, self).

Definition theta_set (self : t) (theta : R) : result t :=
  a <- math_fmod theta 360 ;;
  b <- math_fmod (_phi self) 360 ;;
  Ok (_set_orientation self a b).

Definition phi (self : t) : result (R * t) :=
  o <- _get_orientation self ;;
  let self := with_phi (with_theta self (fst o)) (snd o) in
  Ok (_phi self, self).

Definition phi_set (self : t) (phi : R) : result t :=
  a <- math_fmod (_theta self) 360 ;;
  b <- math_fmod phi 360 ;;
  Ok (_set_orientation self a b).



End Trackball.

(** ** Sequences of operations on a trackball *)

Import Trackball.

(** The calls a client can make on a trackball.  The viewport of a gesture
    is the one the graphics library reports at that call. *)
Inductive op : Type :=
| Drag_to (viewport : Viewport) (x y dx dy : R)
| Zoom_to (viewport : Viewport) (x y dx dy : R)
| Pan_to (x y dx dy : R)
| Set_zoom (zoom : R)
| Set_distance (distance : R)
| Get_theta
| Set_theta (theta : R)
| Get_phi
| Set_phi (phi : R).

Definition step (o : op) (self : t) : result t :=
  match o with
  | Drag_to vp x y dx dy => drag_to vp self x y dx dy
  | Zoom_to vp x y dx dy => zoom_to vp self x y dx dy
  | Pan_to x y dx dy => Ok (pan_to self x y dx dy)
  | Set_zoom z => Ok (zoom_set self z)
  | Set_distance d => Ok (distance_set self d)
  | Get_theta => r <- theta self ;; Ok (snd r)
  | Set_theta a => theta_set self a
  | Get_phi => r <- phi self ;; Ok (snd r)
  | Set_phi a => phi_set self a
  end.

Fixpoint run (os : list op) (self : t) : result t :=
  match os with
  | [] => Ok self
  | o :: os' => s <- step o self ;; run os' s
  end.

Definition writes_zoom (o : op) : bool :=
  match o with
  | Zoom_to _ _ _ _ _ | Set_zoom _ => true
  | _ => false
  end.

Definition writes_distance (o : op) : bool :=
  match o with
  | Set_distance _ => true
  | _ => false
  end.

Definition zoom_in_range (self : t) : Prop := 0.25 <= zoom self <= 10.
Definition distance_in_range (self : t) : Prop := 1 <= distance self.

(** The value the [zoom] setter stores. *)
Definition clamp (lo hi x : R) : R :=
  if Rlt_b x lo then lo else if Rgt_b x hi then hi else x.

(** A run of zoom gestures. *)
Definition zoom_gestures (gs : list (Viewport * R)) : list op :=
  map (fun g => Zoom_to (fst g) 0 0 0 (snd g)) gs.

(** The rotation a drag stores before the counter is looked at: the
    incremental rotation composed onto the current one, third component
    set to zero. *)
Definition composed (q : quat) (self : t) : quat :=
  set_q_2 (_q_add q (_rotation self)) 0.

(** The two constants every constructed trackball carries. *)
Definition constants_ok (s : t) : Prop :=
  _TRACKBALLSIZE s = 0.8 /\ _RENORMCOUNT s = 97%Z.


(** What [_q_normalize] returns has length one, or is the argument, of
    length zero. *)
Definition unit_or_zero (q : quat) : Prop :=
  _q_length q = Ok 1 \/ _q_length q = Ok 0.

(** ** The projection of the specification *)

(** The projection as the specification words it, with the exact [sqrt 2]
    where the source has the decimals [M_SQRT1_2] and [M_SQRT2]. *)
Definition project_spec (r x y : R) : R :=
  let d := sqrt (x * x + y * y) in
  if Rlt_b d (r / sqrt 2) then sqrt (r * r - d * d)
  else r / sqrt 2 * (r / sqrt 2) / d.

(** ** Observations used in the statements below *)



(** Entry [row, col] of the sixteen numbers [_q_rotmatrix] returns, read as
    the source indexes them ([m[row*4 + col]]). *)
Definition m_at (m : list R) (row col : nat) : R := nth (row * 4 + col) m 0.

(** Product of two 4x4 matrices in that indexing. *)
Definition mat_mul (a b : list R) : list R :=
  flat_map (fun i =>
    map (fun j =>
      m_at a i 0 * m_at b 0 j + m_at a i 1 * m_at b 1 j
      + m_at a i 2 * m_at b 2 j + m_at a i 3 * m_at b 3 j)
      [0; 1; 2; 3]%nat)
    [0; 1; 2; 3]%nat.

Definition mat_transpose (a : list R) : list R :=
  flat_map (fun i => map (fun j => m_at a j i) [0; 1; 2; 3]%nat)
    [0; 1; 2; 3]%nat.

Definition mat_identity : list R :=
  [1; 0; 0; 0;  0; 1; 0; 0;  0; 0; 1; 0;  0; 0; 0; 1].


(** [v] is [a] wrapped as [math.fmod(a, 360)] wraps it: a whole number of
    turns away from [a], on the same side of zero, less than a turn. *)
Definition wrapped (a v : R) : Prop :=
  (exists k : Z, a = v + 360 * IZR k) /\
  (0 <= a -> 0 <= v < 360) /\
  (a < 0 -> -360 < v <= 0).

(** Sum of a list of numbers. *)
Definition Rsum (l : list R) : R := fold_right Rplus 0 l.

(** A run of pan gestures. *)
Definition pan_gestures (gs : list (R * R)) : list op :=
  map (fun g => Pan_to 0 0 (fst g) (snd g)) gs.

(** * Properties *)

(** ** The primitives *)

Lemma Rlt_b_true a b : a < b -> Rlt_b a b = true.
Proof. intros H; unfold Rlt_b; destruct (Rlt_dec a b); [reflexivity | contradiction]. Qed.

Lemma Rlt_b_false a b : ~ a < b -> Rlt_b a b = false.
Proof. intros H; unfold Rlt_b; destruct (Rlt_dec a b); [contradiction | reflexivity]. Qed.


Lemma Rgt_b_false a b : ~ a > b -> Rgt_b a b = false.
Proof. intros H; unfold Rgt_b; destruct (Rgt_dec a b); [contradiction | reflexivity]. Qed.

Lemma Req_b_true a b : a = b -> Req_b a b = true.
Proof. intros H; unfold Req_b; destruct (Req_dec_T a b); [reflexivity | contradiction]. Qed.

Lemma Req_b_false a b : a <> b -> Req_b a b = false.
Proof. intros H; unfold Req_b; destruct (Req_dec_T a b); [contradiction | reflexivity]. Qed.

Lemma truediv_ok a b : b <> 0 -> truediv a b = Ok (a / b).
Proof. intros H; unfold truediv; now rewrite Req_b_false. Qed.

Lemma truediv_zero a : truediv a 0 = Raise ZeroDivisionError.
Proof. unfold truediv; now rewrite Req_b_true. Qed.

Lemma math_sqrt_ok x : 0 <= x -> math_sqrt x = Ok (sqrt x).
Proof. intros H; unfold math_sqrt; rewrite Rlt_b_false; [reflexivity | lra]. Qed.

Lemma math_asin_ok x : -1 <= x <= 1 -> math_asin x = Ok (asin x).
Proof.
  intros [H1 H2]; unfold math_asin.
  rewrite Rlt_b_false by lra. now rewrite Rgt_b_false by lra.
Qed.

Lemma math_fmod_ok x y : y <> 0 -> math_fmod x y = Ok (x - y * IZR (Rtrunc (x / y))).
Proof. intros H; unfold math_fmod; now rewrite Req_b_false. Qed.

Lemma Ok_inj {A : Type} (a b : A) : Ok a = Ok b -> a = b.
Proof. congruence. Qed.

(** ** Lengths and normalization *)

Lemma _v_dot_self_nonneg v : 0 <= _v_dot v v.
Proof. destruct v as [a b c]; unfold _v_dot; simpl; nra. Qed.

Lemma _q_dot_self_nonneg q : 0 <= _q_dot q q.
Proof. destruct q as [a b c d]; unfold _q_dot; simpl; nra. Qed.

Lemma _v_length_ok v : _v_length v = Ok (sqrt (_v_dot v v)).
Proof. apply math_sqrt_ok, _v_dot_self_nonneg. Qed.

Lemma _q_length_ok q : _q_length q = Ok (sqrt (_q_dot q q)).
Proof. apply math_sqrt_ok, _q_dot_self_nonneg. Qed.

Lemma _v_dot_mul v s : _v_dot (_v_mul v s) (_v_mul v s) = s * s * _v_dot v v.
Proof. destruct v; unfold _v_dot, _v_mul; simpl; ring. Qed.

Lemma _q_dot_mul q s : _q_dot (_q_mul q s) (_q_mul q s) = s * s * _q_dot q q.
Proof. destruct q; unfold _q_dot, _q_mul; simpl; ring. Qed.

(** Scaling by the inverse of the length gives squared length one. *)
Lemma unit_after_scaling d : 0 <= d -> sqrt d <> 0 ->
  1 / sqrt d * (1 / sqrt d) * d = 1.
Proof.
  intros Hd Hs.
  rewrite <- (sqrt_sqrt d Hd) at 3. now field.
Qed.

Lemma _v_normalize_zero v : sqrt (_v_dot v v) = 0 -> _v_normalize v = Ok v.
Proof.
  intros H. unfold _v_normalize. rewrite _v_length_ok. simpl.
  rewrite H, truediv_zero. reflexivity.
Qed.

Lemma _v_normalize_nonzero v : sqrt (_v_dot v v) <> 0 ->
  _v_normalize v = Ok (_v_mul v (1 / sqrt (_v_dot v v))).
Proof.
  intros H. unfold _v_normalize. rewrite _v_length_ok. simpl.
  rewrite truediv_ok by assumption. reflexivity.
Qed.

Lemma _q_normalize_zero q : sqrt (_q_dot q q) = 0 -> _q_normalize q = Ok q.
Proof.
  intros H. unfold _q_normalize. rewrite _q_length_ok. simpl.
  rewrite H, truediv_zero. reflexivity.
Qed.

Lemma _q_normalize_nonzero q : sqrt (_q_dot q q) <> 0 ->
  _q_normalize q = Ok (_q_mul q (1 / sqrt (_q_dot q q))).
Proof.
  intros H. unfold _q_normalize. rewrite _q_length_ok. simpl.
  rewrite truediv_ok by assumption. reflexivity.
Qed.

Lemma _v_normalize_returns v : returns (_v_normalize v).
Proof.
  destruct (Req_dec_T (sqrt (_v_dot v v)) 0) as [H | H].
  - exists v. now apply _v_normalize_zero.
  - eexists. now apply _v_normalize_nonzero.
Qed.

Lemma _q_normalize_returns q : returns (_q_normalize q).
Proof.
  destruct (Req_dec_T (sqrt (_q_dot q q)) 0) as [H | H].
  - exists q. now apply _q_normalize_zero.
  - eexists. now apply _q_normalize_nonzero.
Qed.

Lemma _v_normalize_unit v : sqrt (_v_dot v v) <> 0 ->
  exists n, _v_normalize v = Ok n /\ _v_length n = Ok 1.
Proof.
  intros H. eexists. split; [now apply _v_normalize_nonzero |].
  rewrite _v_length_ok, _v_dot_mul.
  rewrite unit_after_scaling by (auto using _v_dot_self_nonneg).
  now rewrite sqrt_1.
Qed.

Lemma _q_normalize_unit q : sqrt (_q_dot q q) <> 0 ->
  exists n, _q_normalize q = Ok n /\ _q_length n = Ok 1.
Proof.
  intros H. eexists. split; [now apply _q_normalize_nonzero |].
  rewrite _q_length_ok, _q_dot_mul.
  rewrite unit_after_scaling by (auto using _q_dot_self_nonneg).
  now rewrite sqrt_1.
Qed.

Lemma q_add_id_left q : _q_add (Q4 0 0 0 1) q = q.
Proof.
  destruct q as [a b c d].
  unfold _q_add, append, _v_add, _v_mul, _v_cross, _v_dot, vec_of;
    simpl; f_equal; ring.
Qed.

Lemma q_add_id_right q : _q_add q (Q4 0 0 0 1) = q.
Proof.
  destruct q as [a b c d].
  unfold _q_add, append, _v_add, _v_mul, _v_cross, _v_dot, vec_of;
    simpl; f_equal; ring.
Qed.

(** C8: the quaternion [(0, 0, 0, 1)] is a left and a right identity of
    [_q_add]: for every quaternion [q], [_q_add(identity, q) = q] and
    [_q_add(q, identity) = q]. *)
Theorem q_add_identity (q : quat) :
  _q_add (Q4 0 0 0 1) q = q /\ _q_add q (Q4 0 0 0 1) = q.
Proof. split; [apply q_add_id_left | apply q_add_id_right]. Qed.

(** C9 (amended): [_q_normalize] and [_v_normalize] never raise; on an
    argument whose squared length is between [1e-300] and [1e300] they
    return a value of length one, and on an argument of length zero they
    return the argument itself. *)
Theorem normalize_unit_in_range (q : quat) (v : vec3) :
  (returns (_q_normalize q) /\
   (1e-300 <= _q_dot q q <= 1e300 ->
    exists n, _q_normalize q = Ok n /\ _q_length n = Ok 1) /\
   (_q_length q = Ok 0 -> _q_normalize q = Ok q)) /\
  (returns (_v_normalize v) /\
   (1e-300 <= _v_dot v v <= 1e300 ->
    exists n, _v_normalize v = Ok n /\ _v_length n = Ok 1) /\
   (_v_length v = Ok 0 -> _v_normalize v = Ok v)).
Proof.
  split.
  - split; [apply _q_normalize_returns |]. split.
    + intros [L _]. apply _q_normalize_unit.
      assert (0 < sqrt (_q_dot q q)) by (apply sqrt_lt_R0; lra). lra.
    + rewrite _q_length_ok. intros H. apply _q_normalize_zero. congruence.
  - split; [apply _v_normalize_returns |]. split.
    + intros [L _]. apply _v_normalize_unit.
      assert (0 < sqrt (_v_dot v v)) by (apply sqrt_lt_R0; lra). lra.
    + rewrite _v_length_ok. intros H. apply _v_normalize_zero. congruence.
Qed.


Lemma sqrt_25 : sqrt 25 = 5.
Proof. replace 25 with (5 * 5) by lra. apply sqrt_square; lra. Qed.

Lemma normalize_unit_in_range_witness :
  (exists n, _q_normalize (Q4 3 0 0 4) = Ok n /\ _q_length n = Ok 1) /\
  _q_normalize (Q4 0 0 0 0) = Ok (Q4 0 0 0 0) /\
  (exists n, _v_normalize (V3 0 3 4) = Ok n /\ _v_length n = Ok 1) /\
  _v_normalize (V3 0 0 0) = Ok (V3 0 0 0).
Proof.
  destruct (normalize_unit_in_range (Q4 3 0 0 4) (V3 0 3 4))
    as [[_ [Hq _]] [_ [Hv _]]].
  destruct (normalize_unit_in_range (Q4 0 0 0 0) (V3 0 0 0))
    as [[_ [_ Hq0]] [_ [_ Hv0]]].
  split; [| split; [| split]].
  - apply Hq. unfold _q_dot; simpl. lra.
  - apply Hq0. rewrite _q_length_ok. unfold _q_dot; simpl.
    replace (0 * 0 + 0 * 0 + 0 * 0 + 0 * 0) with 0 by lra.
    now rewrite sqrt_0.
  - apply Hv. unfold _v_dot; simpl. lra.
  - apply Hv0. rewrite _v_length_ok. unfold _v_dot; simpl.
    replace (0 * 0 + 0 * 0 + 0 * 0) with 0 by lra.
    now rewrite sqrt_0.
Defined.

Section ShortArgument.
Import PrimFloat.
Local Open Scope float_scope.

(** C9, as stated, fails: in binary64 the squared length of
    [(1e-200, 0, 0, 0)] underflows to 0.0, the division raises and is
    caught, and the quaternion, which is not zero and far from length one,
    is returned as it is; the same for the vector [(1e-200, 0, 0)]. *)
Lemma normalize_keeps_short_argument :
  Binary64._q_normalize (Binary64.Q4 1e-200 0 0 0)
  = Ok (Binary64.Q4 1e-200 0 0 0) /\
  Binary64._v_normalize (Binary64.V3 1e-200 0 0)
  = Ok (Binary64.V3 1e-200 0 0) /\
  (0 <? 1e-200) = true /\
  (1e-200 <? 1e-199) = true.
Proof. repeat split; vm_compute; reflexivity. Qed.

End ShortArgument.


(** ** The zoom and distance setters and the zoom gesture *)

Lemma zoom_set_clamp s z : zoom (zoom_set s z) = clamp 0.25 10 z.
Proof.
  unfold zoom_set, clamp, zoom, Rlt_b, Rgt_b; simpl.
  destruct (Rlt_dec z 0.25); simpl.
  - destruct (Rgt_dec 0.25 10); simpl; [lra | reflexivity].
  - destruct (Rgt_dec z 10); reflexivity.
Qed.

Lemma clamp_in_range z : 0.25 <= clamp 0.25 10 z <= 10.
Proof.
  unfold clamp, Rlt_b, Rgt_b.
  destruct (Rlt_dec z 0.25); [lra |].
  destruct (Rgt_dec z 10); lra.
Qed.

Lemma zoom_set_in_range s z : zoom_in_range (zoom_set s z).
Proof. unfold zoom_in_range. rewrite zoom_set_clamp. apply clamp_in_range. Qed.

Lemma zoom_set_distance s z : distance (zoom_set s z) = distance s.
Proof.
  unfold zoom_set, distance, Rlt_b, Rgt_b; simpl.
  destruct (Rlt_dec z 0.25); simpl.
  - destruct (Rgt_dec 0.25 10); reflexivity.
  - destruct (Rgt_dec z 10); reflexivity.
Qed.

Lemma distance_set_in_range s d : distance_in_range (distance_set s d).
Proof.
  unfold distance_in_range, distance_set, distance, Rlt_b; simpl.
  destruct (Rlt_dec d 1); simpl; lra.
Qed.

Lemma distance_set_zoom s d : zoom (distance_set s d) = zoom s.
Proof.
  unfold distance_set, zoom, Rlt_b; simpl.
  destruct (Rlt_dec d 1); reflexivity.
Qed.

Lemma zoom_to_ok vp s x y dx dy : vp_3 vp <> 0%Z ->
  zoom_to vp s x y dx dy =
  Ok (zoom_set s (zoom s - 5 * dy / IZR (vp_3 vp))).
Proof.
  intros H. unfold zoom_to.
  rewrite truediv_ok; [reflexivity |].
  intros E. apply eq_IZR_R0 in E. contradiction.
Qed.

Lemma zoom_to_raises vp s x y dx dy : vp_3 vp = 0%Z ->
  zoom_to vp s x y dx dy = Raise ZeroDivisionError.
Proof. intros H. unfold zoom_to. rewrite H. simpl. now rewrite truediv_zero. Qed.

(** C7: with a viewport of non-zero height [H], [zoom_to] stores the raw
    value [zoom - 5*dy/H] clamped to [0.25, 10]; after any sequence of zoom
    gestures started from a zoom in range the zoom is in range. *)
Theorem zoom_to_clamps :
  (forall vp s x y dx dy, vp_3 vp <> 0%Z ->
     exists s', zoom_to vp s x y dx dy = Ok s' /\
       zoom s' = clamp 0.25 10 (zoom s - 5 * dy / IZR (vp_3 vp)) /\
       0.25 <= zoom s' <= 10) /\
  (forall gs s, Forall (fun g => vp_3 (fst g) <> 0%Z) gs ->
     0.25 <= zoom s <= 10 ->
     exists s', run (zoom_gestures gs) s = Ok s' /\ 0.25 <= zoom s' <= 10).
Proof.
  split.
  - intros vp s x y dx dy H. eexists. split; [now apply zoom_to_ok |].
    split; [apply zoom_set_clamp | apply zoom_set_in_range].
  - intros gs. induction gs as [| [vp dy] gs IH]; intros s HF Hs.
    + exists s. now split.
    + inversion HF as [| g gs' Hg HF' ]; subst. simpl in Hg.
      simpl. rewrite zoom_to_ok by assumption. simpl.
      apply IH; [assumption | apply zoom_set_in_range].
Qed.

Lemma clamp_half : clamp 0.25 10 (1 - 5 * 80 / 800) = 0.5.
Proof.
  unfold clamp. rewrite Rlt_b_false by lra. rewrite Rgt_b_false by lra. lra.
Qed.

Lemma zoom_to_clamps_witness :
  (exists s', zoom_to (Build_Viewport 0 0 600 800) (__init__ 0 0 1 3) 0 0 0 80
              = Ok s' /\ zoom s' = 0.5) /\
  (exists s', run (zoom_gestures [(Build_Viewport 0 0 600 800, 80);
                                  (Build_Viewport 0 0 600 800, 8000)])
                  (__init__ 0 0 1 3) = Ok s' /\ 0.25 <= zoom s' <= 10).
Proof.
  destruct zoom_to_clamps as [H1 H2]. split.
  - destruct (H1 (Build_Viewport 0 0 600 800) (__init__ 0 0 1 3) 0 0 0 80)
      as [s' [Hz [Hc _]]]; [simpl; lia |].
    exists s'. split; [exact Hz |].
    rewrite Hc. apply clamp_half.
  - apply H2.
    + repeat constructor; simpl; lia.
    + unfold zoom; simpl. lra.
Defined.

(** ** What each operation does to [zoom] and [distance] *)

Lemma bind_Ok_inv {A B : Type} (c : result A) (k : A -> result B) (b : B) :
  (x <- c ;; k x) = Ok b -> exists a, c = Ok a /\ k a = Ok b.
Proof. destruct c as [a | e]; simpl; [eauto | discriminate]. Qed.

Ltac bind_inv H :=
  let a := fresh "a" in
  let Ha := fresh "Ha" in
  apply bind_Ok_inv in H; destruct H as [a [Ha H]].

Ltac ok_inv H := apply Ok_inj in H; subst.

Lemma drag_to_frame vp s x y dx dy s' :
  drag_to vp s x y dx dy = Ok s' ->
  _zoom s' = _zoom s /\ _distance s' = _distance s /\
  _RENORMCOUNT s' = _RENORMCOUNT s /\ _TRACKBALLSIZE s' = _TRACKBALLSIZE s /\
  _x s' = _x s /\ _y s' = _y s.
Proof.
  unfold drag_to. intros H.
  do 6 bind_inv H. ok_inv H.
  simpl in Ha4.
  destruct (_count s + 1 >? _RENORMCOUNT s)%Z.
  - bind_inv Ha4. ok_inv Ha4. simpl. tauto.
  - ok_inv Ha4. simpl. tauto.
Qed.

Lemma _set_orientation_frame s a b :
  _zoom (_set_orientation s a b) = _zoom s /\
  _distance (_set_orientation s a b) = _distance s /\
  _count (_set_orientation s a b) = _count s /\
  _RENORMCOUNT (_set_orientation s a b) = _RENORMCOUNT s /\
  _TRACKBALLSIZE (_set_orientation s a b) = _TRACKBALLSIZE s.
Proof. unfold _set_orientation; simpl; tauto. Qed.

Lemma step_zoom_frame o s s' :
  writes_zoom o = false -> step o s = Ok s' -> zoom s' = zoom s.
Proof.
  destruct o; simpl; intros W H; try discriminate.
  - now apply drag_to_frame in H.
  - ok_inv H. reflexivity.
  - ok_inv H. apply distance_set_zoom.
  - bind_inv H. ok_inv H. unfold theta in Ha. bind_inv Ha. ok_inv Ha. reflexivity.
  - unfold theta_set in H. do 2 bind_inv H. ok_inv H. reflexivity.
  - bind_inv H. ok_inv H. unfold phi in Ha. bind_inv Ha. ok_inv Ha. reflexivity.
  - unfold phi_set in H. do 2 bind_inv H. ok_inv H. reflexivity.
Qed.

Lemma step_distance_frame o s s' :
  writes_distance o = false -> step o s = Ok s' -> distance s' = distance s.
Proof.
  destruct o; simpl; intros W H; try discriminate.
  - now apply drag_to_frame in H.
  - unfold zoom_to in H. bind_inv H. ok_inv H. apply zoom_set_distance.
  - ok_inv H. reflexivity.
  - ok_inv H. apply zoom_set_distance.
  - bind_inv H. ok_inv H. unfold theta in Ha. bind_inv Ha. ok_inv Ha. reflexivity.
  - unfold theta_set in H. do 2 bind_inv H. ok_inv H. reflexivity.
  - bind_inv H. ok_inv H. unfold phi in Ha. bind_inv Ha. ok_inv Ha. reflexivity.
  - unfold phi_set in H. do 2 bind_inv H. ok_inv H. reflexivity.
Qed.

Lemma run_zoom_frame os : forall s s',
  forallb (fun o => negb (writes_zoom o)) os = true ->
  run os s = Ok s' -> zoom s' = zoom s.
Proof.
  induction os as [| o os IH]; simpl; intros s s' W H.
  - now ok_inv H.
  - apply andb_prop in W. destruct W as [Wo W].
    bind_inv H. rewrite (IH _ _ W H).
    apply (step_zoom_frame o); [| assumption].
    now destruct (writes_zoom o).
Qed.

Lemma run_distance_frame os : forall s s',
  forallb (fun o => negb (writes_distance o)) os = true ->
  run os s = Ok s' -> distance s' = distance s.
Proof.
  induction os as [| o os IH]; simpl; intros s s' W H.
  - now ok_inv H.
  - apply andb_prop in W. destruct W as [Wo W].
    bind_inv H. rewrite (IH _ _ W H).
    apply (step_distance_frame o); [| assumption].
    now destruct (writes_distance o).
Qed.

(** Every operation keeps a zoom and a distance that are in range in
    range; the setters and the zoom gesture put them in range. *)
Lemma step_keeps_range o s s' :
  step o s = Ok s' ->
  (zoom_in_range s -> zoom_in_range s') /\
  (distance_in_range s -> distance_in_range s').
Proof.
  intros H. split; intros R.
  - destruct (writes_zoom o) eqn:W.
    + destruct o; try discriminate; simpl in H.
      * unfold zoom_to in H. bind_inv H. ok_inv H. apply zoom_set_in_range.
      * ok_inv H. apply zoom_set_in_range.
    + unfold zoom_in_range. now rewrite (step_zoom_frame o s s' W H).
  - destruct (writes_distance o) eqn:W.
    + destruct o; try discriminate; simpl in H.
      ok_inv H. apply distance_set_in_range.
    + unfold distance_in_range. now rewrite (step_distance_frame o s s' W H).
Qed.

Lemma run_keeps_range os : forall s s',
  run os s = Ok s' ->
  zoom_in_range s -> distance_in_range s ->
  zoom_in_range s' /\ distance_in_range s'.
Proof.
  induction os as [| o os IH]; simpl; intros s s' H Rz Rd.
  - ok_inv H. now split.
  - bind_inv H. destruct (step_keeps_range o s a Ha) as [Hz Hd].
    apply (IH a s' H); auto.
Qed.

Lemma zoom_set_constants s z :
  _TRACKBALLSIZE (zoom_set s z) = _TRACKBALLSIZE s /\
  _RENORMCOUNT (zoom_set s z) = _RENORMCOUNT s.
Proof.
  unfold zoom_set, Rlt_b, Rgt_b; simpl.
  destruct (Rlt_dec z 0.25); simpl.
  - destruct (Rgt_dec 0.25 10); split; reflexivity.
  - destruct (Rgt_dec z 10); split; reflexivity.
Qed.

Lemma distance_set_constants s d :
  _TRACKBALLSIZE (distance_set s d) = _TRACKBALLSIZE s /\
  _RENORMCOUNT (distance_set s d) = _RENORMCOUNT s.
Proof.
  unfold distance_set, Rlt_b; simpl.
  destruct (Rlt_dec d 1); split; reflexivity.
Qed.

(** No operation changes the ball size or the renormalization threshold
    the constructor sets. *)
Lemma step_keeps_constants o s s' :
  step o s = Ok s' -> constants_ok s -> constants_ok s'.
Proof.
  unfold constants_ok. intros H [Hs Hr].
  destruct o as [vp x y dx dy | vp x y dx dy | x y dx dy | z | d
                | | a | | a]; simpl in H.
  - apply drag_to_frame in H. destruct H as [_ [_ [H1 [H2 _]]]].
    split; congruence.
  - unfold zoom_to in H. bind_inv H. ok_inv H.
    destruct (zoom_set_constants s (zoom s - a)). split; congruence.
  - ok_inv H. split; assumption.
  - ok_inv H. destruct (zoom_set_constants s z). split; congruence.
  - ok_inv H. destruct (distance_set_constants s d). split; congruence.
  - bind_inv H. ok_inv H. unfold theta in Ha. bind_inv Ha. ok_inv Ha.
    split; assumption.
  - unfold theta_set in H. do 2 bind_inv H. ok_inv H. split; assumption.
  - bind_inv H. ok_inv H. unfold phi in Ha. bind_inv Ha. ok_inv Ha.
    split; assumption.
  - unfold phi_set in H. do 2 bind_inv H. ok_inv H. split; assumption.
Qed.

Lemma run_keeps_constants os : forall s s',
  run os s = Ok s' -> constants_ok s -> constants_ok s'.
Proof.
  induction os as [| o os IH]; simpl; intros s s' H Hc.
  - now ok_inv H.
  - bind_inv H. apply (IH a s' H).
    now apply (step_keeps_constants o s a).
Qed.

(** Every trackball reached from the constructor carries its constants. *)
Lemma reachable_constants th ph z d os s :
  run os (__init__ th ph z d) = Ok s -> constants_ok s.
Proof.
  intros H. apply (run_keeps_constants os _ s H). split; reflexivity.
Qed.

Lemma __init__stores th ph z d :
  zoom (__init__ th ph z d) = z /\ distance (__init__ th ph z d) = d.
Proof. split; reflexivity. Qed.

(** C3: the constructor does not establish the range of [zoom] and
    [distance] that the setters maintain: [Trackball(0, 0, 100, 0)] has
    zoom 100, above 10, and distance 0, below 1. *)
Theorem constructor_out_of_range :
  let s := __init__ 0 0 100 0 in
  zoom s = 100 /\ distance s = 0 /\
  ~ zoom_in_range s /\ ~ distance_in_range s.
Proof.
  unfold zoom_in_range, distance_in_range.
  simpl. repeat split; try reflexivity; unfold zoom, distance; simpl; lra.
Qed.

(** C10: the constructor stores its [zoom] and [distance] arguments as they
    are; [Trackball(0, 0, 100, 3)] has zoom 100 and [Trackball(0, 0, 1, 0)]
    has distance 0; and the zoom (the distance) stays what it is through
    every sequence of operations that run to the end and hold no zoom
    setter or zoom gesture (no distance setter). *)
Theorem constructor_stores_verbatim :
  (forall th ph z d,
     zoom (__init__ th ph z d) = z /\ distance (__init__ th ph z d) = d) /\
  ~ zoom_in_range (__init__ 0 0 100 3) /\
  ~ distance_in_range (__init__ 0 0 1 0) /\
  (forall os s s',
     forallb (fun o => negb (writes_zoom o)) os = true ->
     run os s = Ok s' -> zoom s' = zoom s) /\
  (forall os s s',
     forallb (fun o => negb (writes_distance o)) os = true ->
     run os s = Ok s' -> distance s' = distance s).
Proof.
  split; [apply __init__stores |].
  split; [unfold zoom_in_range, zoom; simpl; lra |].
  split; [unfold distance_in_range, distance; simpl; lra |].
  split; [apply run_zoom_frame | apply run_distance_frame].
Qed.

(** ** The projection and the incremental rotation *)

Lemma M_SQRT1_2_bounds : 0.7 < M_SQRT1_2 < 0.71.
Proof. unfold M_SQRT1_2; lra. Qed.

Lemma M_SQRT2_bounds : 1.41 < M_SQRT2 < 1.42.
Proof. unfold M_SQRT2; lra. Qed.

Lemma sqrt_sum_squares_nonneg x y : 0 <= x * x + y * y.
Proof. nra. Qed.

Lemma _project_inside x y :
  sqrt (x * x + y * y) < 0.8 * M_SQRT1_2 ->
  _project 0.8 x y =
  Ok (sqrt (0.8 * 0.8 - sqrt (x * x + y * y) * sqrt (x * x + y * y))).
Proof.
  intros H. unfold _project.
  rewrite math_sqrt_ok by apply sqrt_sum_squares_nonneg. simpl.
  rewrite Rlt_b_true by assumption.
  apply math_sqrt_ok.
  pose proof (sqrt_pos (x * x + y * y)) as Hd.
  pose proof M_SQRT1_2_bounds as Hk.
  nra.
Qed.

Lemma _project_outside x y :
  ~ sqrt (x * x + y * y) < 0.8 * M_SQRT1_2 ->
  _project 0.8 x y =
  Ok (0.8 / M_SQRT2 * (0.8 / M_SQRT2) / sqrt (x * x + y * y)).
Proof.
  intros H. unfold _project.
  rewrite math_sqrt_ok by apply sqrt_sum_squares_nonneg. simpl.
  rewrite Rlt_b_false by assumption.
  apply truediv_ok.
  pose proof M_SQRT1_2_bounds as Hk. lra.
Qed.

Lemma _project_returns x y : returns (_project 0.8 x y).
Proof.
  destruct (Rlt_dec (sqrt (x * x + y * y)) (0.8 * M_SQRT1_2)) as [H | H].
  - eexists. now apply _project_inside.
  - eexists. now apply _project_outside.
Qed.

Lemma _q_from_axis_angle_returns a phi : returns (_q_from_axis_angle a phi).
Proof.
  unfold _q_from_axis_angle.
  destruct (_v_normalize_returns a) as [n Hn]. rewrite Hn. simpl.
  eexists; reflexivity.
Qed.

(** [_rotate] never raises on a trackball whose ball has the size the
    constructor gives it. *)
Lemma _rotate_returns s x y dx dy :
  _TRACKBALLSIZE s = 0.8 -> returns (_rotate s x y dx dy).
Proof.
  intros Hs. unfold _rotate. rewrite Hs.
  destruct (py_not dx && py_not dy)%bool; [eexists; reflexivity |].
  destruct (_project_returns x y) as [lz Hl]. rewrite Hl. simpl.
  destruct (_project_returns (x + dx) (y + dy)) as [nz Hn]. rewrite Hn. simpl.
  rewrite _v_length_ok. simpl.
  rewrite truediv_ok by lra. simpl.
  rewrite math_asin_ok.
  - simpl. apply _q_from_axis_angle_returns.
  - unfold Rgt_b, Rlt_b.
    destruct (Rgt_dec _ 1); destruct (Rlt_dec _ (-1)); lra.
Qed.

Lemma _rotate_zero_delta s x y : _rotate s x y 0 0 = Ok (Q4 0 0 0 1).
Proof. unfold _rotate, py_not. now rewrite Req_b_true. Qed.

(** ** The drag gesture *)

Lemma IZR_nonzero z : z <> 0%Z -> IZR z <> 0.
Proof. intros H E. apply eq_IZR_R0 in E. contradiction. Qed.

(** [drag_to] on a viewport of non-zero size, given the incremental
    rotation [_rotate] returns. *)
Lemma drag_to_ok vp s x y dx dy q :
  vp_2 vp <> 0%Z -> vp_3 vp <> 0%Z ->
  _rotate s ((x * 2 - IZR (vp_2 vp)) / IZR (vp_2 vp))
            ((y * 2 - IZR (vp_3 vp)) / IZR (vp_3 vp))
            (2 * dx / IZR (vp_2 vp)) (2 * dy / IZR (vp_3 vp)) = Ok q ->
  exists s', drag_to vp s x y dx dy = Ok s' /\
    ((_count s + 1 <= _RENORMCOUNT s)%Z ->
       _rotation s' = composed q s /\ _count s' = (_count s + 1)%Z) /\
    ((_count s + 1 > _RENORMCOUNT s)%Z ->
       _q_normalize (composed q s) = Ok (_rotation s') /\ _count s' = 0%Z) /\
    _matrix s' = Some (_q_rotmatrix (_rotation s')).
Proof.
  intros HW HH Hq. unfold drag_to.
  rewrite !truediv_ok by (apply IZR_nonzero; assumption). simpl.
  rewrite Hq. simpl.
  destruct (_count s + 1 >? _RENORMCOUNT s)%Z eqn:E.
  - destruct (_q_normalize_returns (composed q s)) as [n Hn].
    unfold composed in Hn. rewrite Hn. simpl.
    eexists. split; [reflexivity |]. simpl.
    apply Z.gtb_lt in E.
    split; [intros; lia |]. split; [| reflexivity].
    intros _. split; [exact Hn | reflexivity].
  - simpl. eexists. split; [reflexivity |]. simpl.
    assert (~ (_RENORMCOUNT s < _count s + 1)%Z) as E'
      by (rewrite <- Z.gtb_lt; congruence).
    split; [| split; [intros; lia | reflexivity]].
    intros _. split; reflexivity.
Qed.

Lemma drag_to_raises_width vp s x y dx dy : vp_2 vp = 0%Z ->
  drag_to vp s x y dx dy = Raise ZeroDivisionError.
Proof. intros H. unfold drag_to. rewrite H. now rewrite truediv_zero. Qed.

(** The third component survives normalization as zero. *)
Lemma _q_normalize_keeps_zero q n :
  q_2 q = 0 -> _q_normalize q = Ok n -> q_2 n = 0.
Proof.
  intros Hz Hn.
  destruct (Req_dec_T (sqrt (_q_dot q q)) 0) as [H | H].
  - rewrite (_q_normalize_zero q H) in Hn. now ok_inv Hn.
  - rewrite (_q_normalize_nonzero q H) in Hn. ok_inv Hn.
    simpl. rewrite Hz. ring.
Qed.



(** ** A drag with zero deltas *)

(** The rotation the constructor computes from its two angles. *)
Lemma __init__rotation th ph z d :
  _rotation (__init__ th ph z d) =
  Q4 (sin (0.5 * (th * (PI / 180))) * cos (0.5 * (ph * (PI / 180))))
     (sin (0.5 * (th * (PI / 180))) * sin (0.5 * (ph * (PI / 180))))
     (cos (0.5 * (th * (PI / 180))) * sin (0.5 * (ph * (PI / 180))))
     (cos (0.5 * (th * (PI / 180))) * cos (0.5 * (ph * (PI / 180)))).
Proof.
  unfold __init__, _set_orientation, _q_add, append, _v_add, _v_mul,
    _v_cross, _v_dot, vec_of; simpl.
  f_equal; ring.
Qed.

Lemma composed_identity s : composed (Q4 0 0 0 1) s = set_q_2 (_rotation s) 0.
Proof.
  unfold composed. now rewrite q_add_id_left.
Qed.

Lemma zero_delta_normalized w : 2 * 0 / w = 0.
Proof. unfold Rdiv. ring. Qed.

(** What [drag_to] does with zero deltas on a viewport of non-zero size. *)
Lemma zero_delta_drag_ok vp s x y :
  vp_2 vp <> 0%Z -> vp_3 vp <> 0%Z ->
  exists s', drag_to vp s x y 0 0 = Ok s' /\
    ((_count s + 1 <= _RENORMCOUNT s)%Z ->
       _rotation s' = set_q_2 (_rotation s) 0 /\
       _count s' = (_count s + 1)%Z) /\
    ((_count s + 1 > _RENORMCOUNT s)%Z ->
       _q_normalize (set_q_2 (_rotation s) 0) = Ok (_rotation s') /\
       _count s' = 0%Z).
Proof.
  intros HW HH.
  destruct (drag_to_ok vp s x y 0 0 (Q4 0 0 0 1) HW HH)
    as [s' [Hd [Hle [Hgt _]]]].
  - rewrite !zero_delta_normalized. apply _rotate_zero_delta.
  - rewrite composed_identity in Hle, Hgt. exists s'. auto.
Qed.

Lemma set_q_2_same q : q_2 q = 0 -> set_q_2 q 0 = q.
Proof. destruct q; simpl; intros ->; reflexivity. Qed.

(** C1 (amended): on a viewport of non-zero size, [drag_to] with zero
    deltas returns; while the incremented counter does not pass the
    threshold the stored rotation is the old one with its third component
    set to 0, hence unchanged when that component was 0 already; on the
    call where the counter passes the threshold that quaternion is
    normalized as well. *)
Theorem drag_to_zero_delta vp s x y :
  vp_2 vp <> 0%Z -> vp_3 vp <> 0%Z ->
  exists s', drag_to vp s x y 0 0 = Ok s' /\
    ((_count s + 1 <= _RENORMCOUNT s)%Z ->
       _rotation s' = set_q_2 (_rotation s) 0) /\
    ((_count s + 1 <= _RENORMCOUNT s)%Z -> q_2 (_rotation s) = 0 ->
       _rotation s' = _rotation s) /\
    ((_count s + 1 > _RENORMCOUNT s)%Z ->
       _q_normalize (set_q_2 (_rotation s) 0) = Ok (_rotation s')).
Proof.
  intros HW HH.
  destruct (zero_delta_drag_ok vp s x y HW HH) as [s' [Hd [Hle Hgt]]].
  exists s'. split; [exact Hd |].
  split; [intros H; now apply Hle |].
  split; [| intros H; now apply Hgt].
  intros H Hz. destruct (Hle H) as [-> _]. now apply set_q_2_same.
Qed.

Lemma drag_to_zero_delta_witness :
  exists s',
    drag_to (Build_Viewport 0 0 800 600) (__init__ 0 0 1 3) 400 300 0 0
    = Ok s' /\
    _rotation s' = _rotation (__init__ 0 0 1 3).
Proof.
  destruct (drag_to_zero_delta (Build_Viewport 0 0 800 600)
              (__init__ 0 0 1 3) 400 300) as [s' [Hd [_ [Hsame _]]]].
  - simpl; lia.
  - simpl; lia.
  - exists s'. split; [exact Hd |].
    apply Hsame; [simpl; lia |].
    rewrite __init__rotation. simpl.
    replace (0.5 * (0 * (PI / 180))) with 0 by lra.
    rewrite sin_0. ring.
Defined.

Lemma sin_PI4_pos : 0 < sin (PI / 4).
Proof. apply sin_gt_0; pose proof PI_RGT_0; lra. Qed.

(** C1, as stated, fails: [Trackball(0, 90)] has a rotation whose third
    component is not 0, and a drag with zero deltas changes it. *)
Lemma drag_zero_delta_changes_rotation :
  exists s',
    drag_to (Build_Viewport 0 0 800 600) (__init__ 0 90 1 3) 400 300 0 0
    = Ok s' /\
    _rotation s' <> _rotation (__init__ 0 90 1 3).
Proof.
  destruct (zero_delta_drag_ok (Build_Viewport 0 0 800 600)
              (__init__ 0 90 1 3) 400 300) as [s' [Hd [Hle _]]];
    [simpl; lia | simpl; lia |].
  exists s'. split; [exact Hd |].
  destruct Hle as [Hr _]; [simpl; lia |].
  rewrite Hr. intros E.
  apply (f_equal q_2) in E. rewrite __init__rotation in E. simpl in E.
  replace (0.5 * (0 * (PI / 180))) with 0 in E by lra.
  replace (0.5 * (90 * (PI / 180))) with (PI / 4) in E by lra.
  rewrite cos_0 in E. pose proof sin_PI4_pos. lra.
Qed.

(** ** Operations that raise *)

Lemma truediv_raises a b : b = 0 -> truediv a b = Raise ZeroDivisionError.
Proof. intros ->. apply truediv_zero. Qed.

Lemma sin_PI4_square : sin (PI / 4) * sin (PI / 4) = 1 / 2.
Proof.
  rewrite sin_PI4.
  assert (H : sqrt 2 * sqrt 2 = 2) by (apply sqrt_sqrt; lra).
  assert (H0 : sqrt 2 <> 0) by (intros E; rewrite E in H; lra).
  field_simplify_eq; [| assumption]. lra.
Qed.

Lemma sin_cos_square a : sin a * sin a + cos a * cos a = 1.
Proof. pose proof (sin2_cos2 a) as H. unfold Rsqr in H. exact H. Qed.

(** With [phi = 90] the first divisor of [_get_orientation] is zero,
    whatever [theta] is. *)
Lemma _get_orientation_raises th z d :
  _get_orientation (__init__ th 90 z d) = Raise ZeroDivisionError.
Proof.
  unfold _get_orientation. rewrite __init__rotation.
  replace (0.5 * (90 * (PI / 180))) with (PI / 4) by lra.
  rewrite truediv_raises; [reflexivity |].
  pose proof sin_PI4_square as Hs.
  pose proof (sin_cos_square (0.5 * (th * (PI / 180)))) as Hc.
  set (S := sin (0.5 * (th * (PI / 180)))) in *.
  set (C := cos (0.5 * (th * (PI / 180)))) in *.
  set (u := sin (PI / 4)) in *.
  replace (S * u * (S * u) + C * u * (C * u))
    with ((S * S + C * C) * (u * u)) by ring.
  rewrite Hc, Hs. lra.
Qed.

(** C2 fails on the code: reading [theta] or [phi] of [Trackball(1, 90)]
    raises [ZeroDivisionError], and so do [zoom_to] and [drag_to] when the
    viewport has height or width 0. *)
Theorem getters_and_gestures_raise :
  theta (__init__ 1 90 1 3) = Raise ZeroDivisionError /\
  phi (__init__ 1 90 1 3) = Raise ZeroDivisionError /\
  zoom_to (Build_Viewport 0 0 0 0) (__init__ 0 0 1 3) 0 0 0 1
  = Raise ZeroDivisionError /\
  drag_to (Build_Viewport 0 0 0 0) (__init__ 0 0 1 3) 0 0 1 1
  = Raise ZeroDivisionError.
Proof.
  split; [| split; [| split]].
  - unfold theta. now rewrite _get_orientation_raises.
  - unfold phi. now rewrite _get_orientation_raises.
  - now apply zoom_to_raises.
  - now apply drag_to_raises_width.
Qed.

(** ** The drag counter and renormalization *)

Lemma _q_normalize_unit_or_zero q n :
  _q_normalize q = Ok n -> unit_or_zero n.
Proof.
  intros Hn.
  destruct (Req_dec_T (sqrt (_q_dot q q)) 0) as [H | H].
  - rewrite (_q_normalize_zero q H) in Hn. ok_inv Hn.
    right. rewrite _q_length_ok. now rewrite H.
  - destruct (_q_normalize_unit q H) as [n' [Hn' Hl]].
    rewrite Hn in Hn'. ok_inv Hn'. now left.
Qed.

Lemma drag_to_counter vp s x y dx dy :
  vp_2 vp <> 0%Z -> vp_3 vp <> 0%Z -> constants_ok s ->
  exists s', drag_to vp s x y dx dy = Ok s' /\ constants_ok s' /\
    ((_count s + 1 <= 97)%Z -> _count s' = (_count s + 1)%Z) /\
    ((_count s + 1 > 97)%Z ->
       _count s' = 0%Z /\ unit_or_zero (_rotation s')).
Proof.
  intros HW HH [Hs Hr].
  destruct (_rotate_returns s ((x * 2 - IZR (vp_2 vp)) / IZR (vp_2 vp))
              ((y * 2 - IZR (vp_3 vp)) / IZR (vp_3 vp))
              (2 * dx / IZR (vp_2 vp)) (2 * dy / IZR (vp_3 vp)) Hs)
    as [q Hq].
  destruct (drag_to_ok vp s x y dx dy q HW HH Hq) as [s' [Hd [Hle [Hgt _]]]].
  rewrite Hr in Hle, Hgt.
  exists s'. split; [exact Hd |].
  destruct (drag_to_frame _ _ _ _ _ _ _ Hd) as [_ [_ [Hr' [Hs' _]]]].
  split; [split; congruence |].
  split; [intros H; now apply Hle |].
  intros H. destruct (Hgt H) as [Hn Hc]. split; [exact Hc |].
  now apply _q_normalize_unit_or_zero in Hn.
Qed.




Lemma __init__constants th ph z d :
  constants_ok (__init__ th ph z d) /\ _count (__init__ th ph z d) = 0%Z.
Proof. repeat split. Qed.



(** *** Between two renormalizations the length is not kept *)

Lemma run_app os1 : forall os2 s,
  run (os1 ++ os2) s = (s1 <- run os1 s ;; run os2 s1).
Proof.
  induction os1 as [| o os1 IH]; intros os2 s; [reflexivity |].
  simpl. destruct (step o s); [apply IH | reflexivity].
Qed.



Lemma lt_sqrt a v : 0 <= a -> a * a < v -> a < sqrt v.
Proof.
  intros Ha Hv. rewrite <- (sqrt_square a Ha).
  apply sqrt_lt_1_alt. nra.
Qed.





(** ** The projection against its specification *)

Lemma sqrt2_square : sqrt 2 * sqrt 2 = 2.
Proof. apply sqrt_sqrt; lra. Qed.

(** [M_SQRT2] is [sqrt 2] cut after twenty decimals. *)
Lemma M_SQRT2_close : M_SQRT2 < sqrt 2 < M_SQRT2 + 2e-21.
Proof.
  assert (H : M_SQRT2 * M_SQRT2 < 2
              < (M_SQRT2 + 2e-21) * (M_SQRT2 + 2e-21))
    by (unfold M_SQRT2; lra).
  pose proof sqrt2_square as Hs. pose proof (sqrt_pos 2) as Hp.
  pose proof M_SQRT2_bounds as Hb. split; nra.
Qed.

(** [M_SQRT1_2] is [1 / sqrt 2] cut after twenty decimals. *)
Lemma M_SQRT1_2_close : M_SQRT1_2 < / sqrt 2 < M_SQRT1_2 + 1e-21.
Proof.
  assert (H : M_SQRT1_2 * M_SQRT1_2 < 1 / 2
              < (M_SQRT1_2 + 1e-21) * (M_SQRT1_2 + 1e-21))
    by (unfold M_SQRT1_2; lra).
  pose proof sqrt2_square as Hs. pose proof (sqrt_pos 2) as Hp.
  assert (H0 : sqrt 2 <> 0) by nra.
  pose proof (Rinv_l (sqrt 2) H0) as Hi.
  assert (Hip : 0 < / sqrt 2) by (apply Rinv_0_lt_compat; nra).
  assert (Hii : / sqrt 2 * / sqrt 2 = 1 / 2).
  { assert (E : / sqrt 2 * / sqrt 2 * (sqrt 2 * sqrt 2) = 1).
    { replace (/ sqrt 2 * / sqrt 2 * (sqrt 2 * sqrt 2))
        with (/ sqrt 2 * sqrt 2 * (/ sqrt 2 * sqrt 2)) by ring.
      rewrite Hi. ring. }
    rewrite Hs in E. lra. }
  pose proof M_SQRT1_2_bounds as Hb. split; nra.
Qed.

Lemma sqrt_lt_bound w b : 0 <= w -> 0 < b -> w < b * b -> sqrt w < b.
Proof.
  intros Hw Hb H. rewrite <- (sqrt_square b) by lra.
  apply sqrt_lt_1_alt. lra.
Qed.

(** The radius over [sqrt 2]. *)
Lemma radius_over_sqrt2 :
  0.8 / sqrt 2 * (0.8 / sqrt 2) = 0.32 /\
  0.56 < 0.8 / sqrt 2 /\
  0.8 / (M_SQRT2 + 2e-21) < 0.8 / sqrt 2.
Proof.
  pose proof sqrt2_square as Hs. pose proof (sqrt_pos 2) as Hp.
  pose proof M_SQRT2_close as Hc. pose proof M_SQRT2_bounds as Hb.
  assert (H0 : sqrt 2 <> 0) by nra.
  pose proof (Rinv_l (sqrt 2) H0) as Hi.
  assert (Hip : 0 < / sqrt 2) by (apply Rinv_0_lt_compat; nra).
  assert (Hsq : 0.8 / sqrt 2 * (0.8 / sqrt 2) = 0.32).
  { assert (E : / sqrt 2 * / sqrt 2 * (sqrt 2 * sqrt 2) = 1).
    { replace (/ sqrt 2 * / sqrt 2 * (sqrt 2 * sqrt 2))
        with (/ sqrt 2 * sqrt 2 * (/ sqrt 2 * sqrt 2)) by ring.
      rewrite Hi. ring. }
    rewrite Hs in E. unfold Rdiv. nra. }
  split; [exact Hsq |]. split.
  - assert (0 < 0.8 / sqrt 2) by (unfold Rdiv; nra). nra.
  - unfold Rdiv. apply Rmult_lt_compat_l; [lra |].
    apply Rinv_lt_contravar; [nra | lra].
Qed.

(** On every point the source's projection is within [1e-20] of the
    specified one. *)
Lemma _project_close x y :
  exists z, _project 0.8 x y = Ok z /\
    Rabs (z - project_spec 0.8 x y) <= 1e-20.
Proof.
  destruct radius_over_sqrt2 as [HH [Hgt Hlo]].
  pose proof (sqrt_pos (x * x + y * y)) as Hd.
  assert (HA : 0.8 * M_SQRT1_2 * (0.8 * M_SQRT1_2) < 0.32)
    by (unfold M_SQRT1_2; lra).
  assert (HAp : 0.56 < 0.8 * M_SQRT1_2) by (unfold M_SQRT1_2; lra).
  assert (HT : 0.32 < 0.8 / M_SQRT2 * (0.8 / M_SQRT2) < 0.32 + 1e-21)
    by (unfold M_SQRT2; lra).
  unfold project_spec.
  set (d := sqrt (x * x + y * y)) in *.
  set (H := 0.8 / sqrt 2) in *.
  set (T := 0.8 / M_SQRT2 * (0.8 / M_SQRT2)) in *.
  assert (HAH : 0.8 * M_SQRT1_2 < H) by nra.
  destruct (Rlt_dec d (0.8 * M_SQRT1_2)) as [L1 | L1].
  - (* on the sphere for both *)
    eexists. split; [now apply _project_inside |].
    rewrite Rlt_b_true by lra.
    fold d. rewrite Rminus_diag, Rabs_R0. lra.
  - rewrite (_project_outside x y L1). fold d. fold T.
    eexists. split; [reflexivity |].
    assert (Hdp : 0 < d) by lra.
    destruct (Rlt_dec d H) as [L2 | L2].
    + (* between the two thresholds *)
      rewrite Rlt_b_true by assumption.
      assert (Hw : 0.32 < 0.8 * 0.8 - d * d) by nra.
      assert (Hz1 : H < sqrt (0.8 * 0.8 - d * d)).
      { apply lt_sqrt; [lra | lra]. }
      assert (Hz2 : sqrt (0.8 * 0.8 - d * d) < H + 1e-21).
      { apply sqrt_lt_bound; [lra | lra |].
        assert (0.8 * 0.8 - d * d
                <= 0.64 * (1 - M_SQRT1_2 * M_SQRT1_2)) by nra.
        assert (0.64 * (1 - M_SQRT1_2 * M_SQRT1_2) < 0.32 + 1e-21)
          by (unfold M_SQRT1_2; lra).
        nra. }
      assert (Hy1 : H < T / d).
      { apply Rmult_lt_reg_r with d; [exact Hdp |].
        unfold Rdiv. rewrite Rmult_assoc, Rinv_l by lra. nra. }
      assert (Hy2 : T / d < H + 4e-21).
      { assert (T / d <= T / (0.8 * M_SQRT1_2)).
        { unfold Rdiv. apply Rmult_le_compat_l; [lra |].
          apply Rinv_le_contravar; lra. }
        assert (T / (0.8 * M_SQRT1_2) < 0.8 / (M_SQRT2 + 2e-21) + 4e-21)
          by (unfold T, M_SQRT1_2, M_SQRT2; lra).
        lra. }
      apply Rabs_le. lra.
    + (* on the hyperbola for both *)
      rewrite Rlt_b_false by assumption.
      rewrite HH.
      assert (Hi : 0 < / d <= / 0.56).
      { split; [now apply Rinv_0_lt_compat |].
        apply Rinv_le_contravar; lra. }
      assert (Hi2 : / 0.56 < 2) by lra.
      replace (T / d - 0.32 / d) with ((T - 0.32) * / d)
        by (unfold Rdiv; ring).
      apply Rabs_le. nra.
Qed.

Lemma _project_center : _project 0.8 0 0 = Ok 0.8.
Proof.
  assert (H0 : sqrt (0 * 0 + 0 * 0) = 0).
  { replace (0 * 0 + 0 * 0) with 0 by lra. apply sqrt_0. }
  rewrite _project_inside.
  - rewrite H0. replace (0.8 * 0.8 - 0 * 0) with (0.8 * 0.8) by lra.
    now rewrite sqrt_square by lra.
  - rewrite H0. pose proof M_SQRT1_2_bounds. lra.
Qed.

(** C5: with radius 0.8 and [d = sqrt(x*x + y*y)], [_project] returns
    [sqrt(R*R - d*d)] when [d < R * M_SQRT1_2] and [(R / M_SQRT2)^2 / d]
    otherwise, where [M_SQRT1_2] and [M_SQRT2] are the source's twenty
    decimals of [1 / sqrt 2] and [sqrt 2]; the value is within [1e-20] of
    the projection specified with the exact [sqrt 2] on every point, and
    [_project(0.8, 0, 0)] is exactly 0.8. *)
Theorem _project_sphere_or_hyperbola (x y : R) :
  let d := sqrt (x * x + y * y) in
  (d < 0.8 * M_SQRT1_2 ->
   _project 0.8 x y = Ok (sqrt (0.8 * 0.8 - d * d))) /\
  (~ d < 0.8 * M_SQRT1_2 ->
   _project 0.8 x y = Ok (0.8 / M_SQRT2 * (0.8 / M_SQRT2) / d)) /\
  (exists z, _project 0.8 x y = Ok z /\
     Rabs (z - project_spec 0.8 x y) <= 1e-20) /\
  (M_SQRT1_2 < / sqrt 2 < M_SQRT1_2 + 1e-21 /\
   M_SQRT2 < sqrt 2 < M_SQRT2 + 2e-21) /\
  _project 0.8 0 0 = Ok 0.8.
Proof.
  intros d. split; [apply _project_inside |].
  split; [apply _project_outside |].
  split; [apply _project_close |].
  split; [split; [apply M_SQRT1_2_close | apply M_SQRT2_close] |].
  apply _project_center.
Qed.

Lemma _project_sphere_or_hyperbola_witness :
  _project 0.8 0.3 0.4 = Ok (sqrt (0.8 * 0.8 - 0.5 * 0.5)) /\
  _project 0.8 3 4 = Ok (0.8 / M_SQRT2 * (0.8 / M_SQRT2) / 5).
Proof.
  assert (H1 : sqrt (0.3 * 0.3 + 0.4 * 0.4) = 0.5).
  { replace (0.3 * 0.3 + 0.4 * 0.4) with (0.5 * 0.5) by lra.
    apply sqrt_square; lra. }
  assert (H2 : sqrt (3 * 3 + 4 * 4) = 5).
  { replace (3 * 3 + 4 * 4) with 25 by lra. apply sqrt_25. }
  pose proof M_SQRT1_2_bounds as Hk.
  destruct (_project_sphere_or_hyperbola 0.3 0.4) as [Hin _].
  destruct (_project_sphere_or_hyperbola 3 4) as [_ [Hout _]].
  cbv zeta in Hin, Hout. rewrite H1 in Hin. rewrite H2 in Hout.
  split; [apply Hin; lra | apply Hout; lra].
Defined.

Lemma constructor_stores_verbatim_witness :
  zoom (distance_set (pan_to (__init__ 0 0 100 3) 0 0 1 1) 5) = 100 /\
  distance (zoom_set (pan_to (__init__ 0 0 1 0) 0 0 1 1) 2) = 0.
Proof.
  destruct constructor_stores_verbatim as [Hs [_ [_ [Hz Hd]]]].
  split.
  - rewrite (Hz [Pan_to 0 0 1 1; Set_distance 5] (__init__ 0 0 100 3)
               (distance_set (pan_to (__init__ 0 0 100 3) 0 0 1 1) 5)).
    + apply Hs.
    + reflexivity.
    + reflexivity.
  - rewrite (Hd [Pan_to 0 0 1 1; Set_zoom 2] (__init__ 0 0 1 0)
               (zoom_set (pan_to (__init__ 0 0 1 0) 0 0 1 1) 2)).
    + apply Hs.
    + reflexivity.
    + reflexivity.
Defined.

(** * Further properties of the module *)

(** ** Vector and quaternion algebra *)

Lemma q_add_dot_product (q1 q2 : quat) :
  _q_dot (_q_add q1 q2) (_q_add q1 q2) = _q_dot q1 q1 * _q_dot q2 q2.
Proof.
  destruct q1 as [a b c d], q2 as [e f g h].
  unfold _q_add, _q_dot, append, _v_add, _v_mul, _v_cross, _v_dot, vec_of;
    simpl. ring.
Qed.

(** X1: [_q_add] multiplies squared lengths: composing two quaternions
    gives a quaternion whose squared length is the product of theirs, so
    composing unit quaternions gives a unit quaternion. *)
Theorem _q_add_norm (q1 q2 : quat) :
  _q_dot (_q_add q1 q2) (_q_add q1 q2) = _q_dot q1 q1 * _q_dot q2 q2.
Proof. intros; now apply q_add_dot_product. Qed.

(** X2: [_q_add] is associative. *)
Theorem _q_add_assoc (q1 q2 q3 : quat) :
  _q_add (_q_add q1 q2) q3 = _q_add q1 (_q_add q2 q3).
Proof.
  destruct q1 as [a b c d], q2 as [e f g h], q3 as [i j k l].
  unfold _q_add, append, _v_add, _v_mul, _v_cross, _v_dot, vec_of;
    simpl. f_equal; ring.
Qed.

(** X3: [_v_cross] is orthogonal to both of its arguments and changes sign
    when they are swapped, so the rotation axis [_rotate] computes is
    orthogonal to the two projected points. *)
Theorem _v_cross_orthogonal (v1 v2 : vec3) :
  _v_dot (_v_cross v1 v2) v1 = 0 /\
  _v_dot (_v_cross v1 v2) v2 = 0 /\
  _v_cross v2 v1 = _v_mul (_v_cross v1 v2) (-1).
Proof.
  destruct v1 as [a b c], v2 as [d e f].
  unfold _v_cross, _v_dot, _v_mul; simpl.
  split; [ring | split; [ring | f_equal; ring]].
Qed.






Lemma _v_dot_zero v : sqrt (_v_dot v v) = 0 -> v = V3 0 0 0.
Proof.
  intros H. apply sqrt_eq_0 in H; [| apply _v_dot_self_nonneg].
  destruct v as [a b c]; unfold _v_dot in H; simpl in H.
  assert (a = 0) by nra. assert (b = 0) by nra. assert (c = 0) by nra.
  now subst.
Qed.

Lemma axis_angle_length (a : vec3) (phi : R) :
  exists q, _q_from_axis_angle a phi = Ok q /\
    (_v_length a <> Ok 0 -> _q_dot q q = 1) /\
    (_v_length a = Ok 0 -> q = Q4 0 0 0 (cos (phi / 2))).
Proof.
  unfold _q_from_axis_angle. rewrite _v_length_ok.
  destruct (Req_dec_T (sqrt (_v_dot a a)) 0) as [H | H].
  - rewrite (_v_normalize_zero a H). cbn [bind].
    eexists. split; [reflexivity |]. split; [intros N; congruence |].
    intros _. rewrite (_v_dot_zero a H).
    unfold append, _v_mul; simpl. f_equal; ring.
  - rewrite (_v_normalize_nonzero a H). cbn [bind].
    eexists. split; [reflexivity |]. split; [| intros E; congruence].
    intros _.
    pose proof (unit_after_scaling (_v_dot a a) (_v_dot_self_nonneg a) H)
      as Hu.
    pose proof (sin_cos_square (phi / 2)) as Hsc.
    set (i := 1 / sqrt (_v_dot a a)) in *.
    set (sn := sin (phi / 2)) in *. set (cs := cos (phi / 2)) in *.
    destruct a as [a0 a1 a2];
      unfold _q_dot, _v_dot, _v_mul, append in *; simpl in *.
    replace (a0 * i * sn * (a0 * i * sn) + a1 * i * sn * (a1 * i * sn)
             + a2 * i * sn * (a2 * i * sn) + cs * cs)
      with (i * i * (a0 * a0 + a1 * a1 + a2 * a2) * (sn * sn) + cs * cs)
      by ring.
    rewrite Hu. lra.
Qed.

(** X5: [_q_from_axis_angle] never raises; for an axis whose squared
    length is between [1e-300] and [1e300] the result has squared length
    one, whatever the length of the axis; for the zero axis it is
    [(0, 0, 0, cos(phi/2))]. *)
Theorem _q_from_axis_angle_unit (a : vec3) (phi : R) :
  exists q, _q_from_axis_angle a phi = Ok q /\
    (1e-300 <= _v_dot a a <= 1e300 -> _q_dot q q = 1) /\
    (_v_length a = Ok 0 -> q = Q4 0 0 0 (cos (phi / 2))).
Proof.
  destruct (axis_angle_length a phi) as [q [Hq [Hu Hz]]].
  exists q. split; [exact Hq |]. split; [| exact Hz].
  intros [L _]. apply Hu. rewrite _v_length_ok. intros E.
  apply Ok_inj in E. apply sqrt_eq_0 in E; lra.
Qed.

Lemma _q_from_axis_angle_unit_witness :
  (exists q, _q_from_axis_angle (V3 0 3 4) PI = Ok q /\ _q_dot q q = 1) /\
  _q_from_axis_angle (V3 0 0 0) PI = Ok (Q4 0 0 0 (cos (PI / 2))).
Proof.
  split.
  - destruct (_q_from_axis_angle_unit (V3 0 3 4) PI) as [q [Hq [Hu _]]].
    exists q. split; [exact Hq |]. apply Hu.
    unfold _v_dot; simpl. lra.
  - destruct (_q_from_axis_angle_unit (V3 0 0 0) PI) as [q [Hq [_ Hz]]].
    rewrite Hq. f_equal. apply Hz.
    rewrite _v_length_ok. unfold _v_dot; simpl.
    replace (0 * 0 + 0 * 0 + 0 * 0) with 0 by lra. now rewrite sqrt_0.
Defined.

(** ** The rotation matrix *)

Lemma _q_rotmatrix_entries q :
  _q_rotmatrix q =
  [1 - 2 * (q_1 q * q_1 q + q_2 q * q_2 q);
   2 * (q_0 q * q_1 q - q_2 q * q_3 q);
   2 * (q_2 q * q_0 q + q_1 q * q_3 q);
   0;
   2 * (q_0 q * q_1 q + q_2 q * q_3 q);
   1 - 2 * (q_2 q * q_2 q + q_0 q * q_0 q);
   2 * (q_1 q * q_2 q - q_0 q * q_3 q);
   0;
   2 * (q_2 q * q_0 q - q_1 q * q_3 q);
   2 * (q_1 q * q_2 q + q_0 q * q_3 q);
   1 - 2 * (q_1 q * q_1 q + q_0 q * q_0 q);
   0;
   0; 0; 0; 1].
Proof. reflexivity. Qed.

Ltac matrix_entries :=
  rewrite !_q_rotmatrix_entries;
  unfold mat_mul, mat_transpose, mat_identity, m_at;
  cbn [flat_map map nth app Nat.add Nat.mul q_0 q_1 q_2 q_3].

(** X6: [_q_rotmatrix] returns sixteen numbers whose last row and last
    column are those of the identity, and the matrix of a unit quaternion
    is orthogonal: times its transpose it is the identity matrix. *)
Theorem _q_rotmatrix_orthogonal (q : quat) :
  length (_q_rotmatrix q) = 16%nat /\
  (forall i, (i < 3)%nat ->
     m_at (_q_rotmatrix q) i 3 = 0 /\ m_at (_q_rotmatrix q) 3 i = 0) /\
  m_at (_q_rotmatrix q) 3 3 = 1 /\
  (_q_dot q q = 1 ->
   mat_mul (_q_rotmatrix q) (mat_transpose (_q_rotmatrix q)) = mat_identity).
Proof.
  split; [reflexivity |]. split; [| split; [reflexivity |]].
  - intros i Hi.
    destruct i as [| [| [| i]]]; [split; reflexivity .. | lia].
  - destruct q as [a b c d]. unfold _q_dot; simpl q_0; simpl q_1;
      simpl q_2; simpl q_3. intros H.
    matrix_entries.
    repeat (apply f_equal2; [nsatz |]). reflexivity.
Qed.

Lemma _q_rotmatrix_orthogonal_witness :
  mat_mul (_q_rotmatrix (Q4 0.6 0 0 0.8))
          (mat_transpose (_q_rotmatrix (Q4 0.6 0 0 0.8))) = mat_identity /\
  m_at (_q_rotmatrix (Q4 0.6 0 0 0.8)) 0 3 = 0.
Proof.
  destruct (_q_rotmatrix_orthogonal (Q4 0.6 0 0 0.8)) as [_ [Ha [_ Ho]]].
  split.
  - apply Ho. unfold _q_dot; simpl. lra.
  - apply (Ha 0%nat). lia.
Defined.

(** X7: the matrix of a composition is the product of the matrices: for
    unit quaternions, [_q_rotmatrix(_q_add(q1, q2))] is the matrix of [q2]
    times the matrix of [q1]. *)
Theorem _q_rotmatrix_of_q_add (q1 q2 : quat) :
  _q_dot q1 q1 = 1 -> _q_dot q2 q2 = 1 ->
  _q_rotmatrix (_q_add q1 q2)
  = mat_mul (_q_rotmatrix q2) (_q_rotmatrix q1).
Proof.
  destruct q1 as [a b c d], q2 as [e f g h].
  unfold _q_dot; cbn [q_0 q_1 q_2 q_3]. intros H1 H2.
  unfold _q_add, append, _v_add, _v_mul, _v_cross, _v_dot, vec_of.
  cbn [q_0 q_1 q_2 q_3 v_0 v_1 v_2].
  matrix_entries.
  repeat (apply f_equal2; [nsatz |]). reflexivity.
Qed.

Lemma _q_rotmatrix_of_q_add_witness :
  _q_rotmatrix (_q_add (Q4 0.6 0 0 0.8) (Q4 0 0 0.8 0.6))
  = mat_mul (_q_rotmatrix (Q4 0 0 0.8 0.6)) (_q_rotmatrix (Q4 0.6 0 0 0.8)).
Proof.
  apply _q_rotmatrix_of_q_add; unfold _q_dot; simpl; lra.
Defined.

(** ** Orientation, cached matrix and length of the rotation *)

Lemma set_orientation_facts (s : t) (a b : R) :
  _rotation (_set_orientation s a b) =
    _q_add (Q4 (1 * sin (0.5 * (a * (PI / 180)))) 0 0
               (cos (0.5 * (a * (PI / 180)))))
           (Q4 0 0 (sin (0.5 * (b * (PI / 180))))
               (cos (0.5 * (b * (PI / 180))))) /\
  _q_dot (_rotation (_set_orientation s a b))
         (_rotation (_set_orientation s a b)) = 1 /\
  _matrix (_set_orientation s a b)
  = Some (_q_rotmatrix (_rotation (_set_orientation s a b))) /\
  _theta (_set_orientation s a b) = a /\
  _phi (_set_orientation s a b) = b.
Proof.
  split; [reflexivity |]. split; [| repeat split].
  unfold _set_orientation. cbn [_rotation with_matrix with_rotation].
  cbn [_theta _phi with_theta with_phi].
  rewrite q_add_dot_product. unfold _q_dot; cbn [q_0 q_1 q_2 q_3].
  pose proof (sin_cos_square (0.5 * (a * (PI / 180)))) as Ha.
  pose proof (sin_cos_square (0.5 * (b * (PI / 180)))) as Hb.
  nra.
Qed.

(** X8: [_set_orientation], and with it the constructor and the [theta]
    and [phi] setters, stores a rotation of squared length one that does
    not depend on the rotation held before, together with its matrix. *)
Theorem _set_orientation_unit (s : t) (a b : R) :
  _rotation (_set_orientation s a b) =
    _q_add (Q4 (1 * sin (0.5 * (a * (PI / 180)))) 0 0
               (cos (0.5 * (a * (PI / 180)))))
           (Q4 0 0 (sin (0.5 * (b * (PI / 180))))
               (cos (0.5 * (b * (PI / 180))))) /\
  _q_dot (_rotation (_set_orientation s a b))
         (_rotation (_set_orientation s a b)) = 1 /\
  _matrix (_set_orientation s a b)
  = Some (_q_rotmatrix (_rotation (_set_orientation s a b))) /\
  _theta (_set_orientation s a b) = a /\
  _phi (_set_orientation s a b) = b.
Proof. intros; now apply set_orientation_facts. Qed.

Lemma drag_to_matrix vp s x y dx dy s' :
  drag_to vp s x y dx dy = Ok s' ->
  _matrix s' = Some (_q_rotmatrix (_rotation s')) /\ q_2 (_rotation s') = 0.
Proof.
  unfold drag_to. intros H.
  do 6 bind_inv H. ok_inv H.
  cbn [_count with_count with_rotation _RENORMCOUNT _rotation] in Ha4.
  destruct (_count s + 1 >? _RENORMCOUNT s)%Z.
  - bind_inv Ha4. ok_inv Ha4. split; [reflexivity |].
    cbn [_rotation with_matrix with_count with_rotation].
    apply (_q_normalize_keeps_zero (set_q_2 (_q_add a3 (_rotation s)) 0) a5);
      [reflexivity | exact Ha5].
  - ok_inv Ha4. split; reflexivity.
Qed.

Lemma zoom_set_rotation s z :
  _rotation (zoom_set s z) = _rotation s /\
  _matrix (zoom_set s z) = _matrix s /\
  _count (zoom_set s z) = _count s /\
  _x (zoom_set s z) = _x s /\ _y (zoom_set s z) = _y s.
Proof.
  unfold zoom_set, Rlt_b, Rgt_b; simpl.
  destruct (Rlt_dec z 0.25); simpl.
  - destruct (Rgt_dec 0.25 10); repeat split.
  - destruct (Rgt_dec z 10); repeat split.
Qed.

Lemma distance_set_rotation s d :
  _rotation (distance_set s d) = _rotation s /\
  _matrix (distance_set s d) = _matrix s /\
  _count (distance_set s d) = _count s /\
  _x (distance_set s d) = _x s /\ _y (distance_set s d) = _y s.
Proof.
  unfold distance_set, Rlt_b; simpl.
  destruct (Rlt_dec d 1); repeat split.
Qed.

(** Which operations write the rotation. *)
Lemma step_rotation o s s' :
  step o s = Ok s' ->
  match o with
  | Drag_to _ _ _ _ _ => q_2 (_rotation s') = 0
  | Set_theta _ | Set_phi _ => _q_dot (_rotation s') (_rotation s') = 1
  | _ => _rotation s' = _rotation s /\ _matrix s' = _matrix s
  end.
Proof.
  destruct o as [vp x y dx dy | vp x y dx dy | x y dx dy | z | d
                | | a | | a]; simpl; intros H.
  - now apply drag_to_matrix in H.
  - unfold zoom_to in H. bind_inv H. ok_inv H.
    destruct (zoom_set_rotation s (zoom s - a)) as [H1 [H2 _]]. now split.
  - ok_inv H. split; reflexivity.
  - ok_inv H. destruct (zoom_set_rotation s z) as [H1 [H2 _]]. now split.
  - ok_inv H. destruct (distance_set_rotation s d) as [H1 [H2 _]]. now split.
  - bind_inv H. ok_inv H. unfold theta in Ha. bind_inv Ha. ok_inv Ha.
    split; reflexivity.
  - unfold theta_set in H. do 2 bind_inv H. ok_inv H.
    apply set_orientation_facts.
  - bind_inv H. ok_inv H. unfold phi in Ha. bind_inv Ha. ok_inv Ha.
    split; reflexivity.
  - unfold phi_set in H. do 2 bind_inv H. ok_inv H.
    apply set_orientation_facts.
Qed.

Lemma step_matrix o s s' :
  step o s = Ok s' ->
  _matrix s = Some (_q_rotmatrix (_rotation s)) ->
  _matrix s' = Some (_q_rotmatrix (_rotation s')).
Proof.
  intros H Hm. pose proof (step_rotation o s s' H) as Hr.
  destruct o as [vp x y dx dy | vp x y dx dy | x y dx dy | z | d
                | | a | | a];
    try (destruct Hr; congruence).
  - simpl in H. now apply drag_to_matrix in H.
  - simpl in H. unfold theta_set in H. do 2 bind_inv H. ok_inv H.
    apply set_orientation_facts.
  - simpl in H. unfold phi_set in H. do 2 bind_inv H. ok_inv H.
    apply set_orientation_facts.
Qed.

(** X9: the cached matrix always is the matrix of the current rotation:
    in every state reached from the constructor through any sequence of
    operations, [matrix] is [_q_rotmatrix] of the stored rotation. *)
Theorem matrix_follows_rotation (os : list op) (th ph z d : R) (s : t) :
  run os (__init__ th ph z d) = Ok s ->
  matrix s = Some (_q_rotmatrix (_rotation s)).
Proof.
  assert (G : forall os s0 s1, run os s0 = Ok s1 ->
            _matrix s0 = Some (_q_rotmatrix (_rotation s0)) ->
            _matrix s1 = Some (_q_rotmatrix (_rotation s1))).
  { clear. induction os as [| o os IH]; simpl; intros s0 s1 H Hm.
    - now ok_inv H.
    - bind_inv H. apply (IH a s1 H). now apply (step_matrix o s0 a). }
  intros H. unfold matrix. apply (G os _ s H). reflexivity.
Qed.

Lemma matrix_follows_rotation_witness :
  exists s,
    run [Set_zoom 2; Drag_to (Build_Viewport 0 0 2 2) 2 1 (-1) 2]
        (__init__ 30 40 1 3) = Ok s /\
    matrix s = Some (_q_rotmatrix (_rotation s)).
Proof.
  assert (R : exists s,
    run [Set_zoom 2; Drag_to (Build_Viewport 0 0 2 2) 2 1 (-1) 2]
        (__init__ 30 40 1 3) = Ok s /\
    _rotation s = _rotation s).
  { cbn [run step bind].
    destruct (drag_to_counter (Build_Viewport 0 0 2 2)
                (zoom_set (__init__ 30 40 1 3) 2) 2 1 (-1) 2)
      as [s1 [H1 _]]; [simpl; lia | simpl; lia | |].
    - destruct (zoom_set_constants (__init__ 30 40 1 3) 2) as [E1 E2].
      split; [rewrite E1 | rewrite E2]; reflexivity.
    - rewrite H1. cbn [bind]. eauto. }
  destruct R as [s [Hs _]].
  exists s. split; [exact Hs |].
  exact (matrix_follows_rotation _ 30 40 1 3 s Hs).
Defined.



Lemma rotate_dot_bound (s : t) (x y dx dy : R) (q : quat) :
  _rotate s x y dx dy = Ok q -> 0 <= _q_dot q q <= 1.
Proof.
  intros H. split; [apply _q_dot_self_nonneg |].
  unfold _rotate in H.
  destruct (py_not dx && py_not dy)%bool.
  - ok_inv H. unfold _q_dot; simpl. lra.
  - do 5 bind_inv H.
    match type of H with
    | _q_from_axis_angle ?a ?p = _ =>
        destruct (axis_angle_length a p) as [q' [Hq [Hu Hz]]];
        rewrite Hq in H; ok_inv H;
        destruct (Req_dec_T (sqrt (_v_dot a a)) 0) as [E | E]
    end.
    + rewrite Hz by (rewrite _v_length_ok; now rewrite E).
      unfold _q_dot; simpl.
      match goal with
      | |- context [cos ?u] => pose proof (COS_bound u) as [B1 B2]
      end. nra.
    + rewrite Hu; [lra |]. rewrite _v_length_ok. congruence.
Qed.

(** X10: whatever [_rotate] returns has squared length at most one: it is
    the identity for zero deltas, and otherwise built by
    [_q_from_axis_angle], of length one unless the axis is zero. *)
Theorem _rotate_norm (s : t) (x y dx dy : R) (q : quat) :
  _rotate s x y dx dy = Ok q -> 0 <= _q_dot q q <= 1.
Proof. exact (rotate_dot_bound s x y dx dy q). Qed.

Lemma _rotate_norm_witness :
  exists q,
    _rotate (__init__ 0 0 1 3) 1 0 (-1) 2 = Ok q /\ 0 <= _q_dot q q <= 1.
Proof.
  destruct (_rotate_returns (__init__ 0 0 1 3) 1 0 (-1) 2 eq_refl)
    as [q Hq].
  exists q. split; [exact Hq |].
  exact (_rotate_norm (__init__ 0 0 1 3) 1 0 (-1) 2 q Hq).
Defined.






(** ** The angle getters *)

Lemma get_orientation_cases (s : t) :
  let q := _rotation s in
  let den1 := 1 - 2 * (q_1 q * q_1 q + q_2 q * q_2 q) in
  let den2 := 1 - 2 * (q_2 q * q_2 q + q_3 q * q_3 q) in
  (den1 = 0 \/ den2 = 0 <-> _get_orientation s = Raise ZeroDivisionError) /\
  (den1 <> 0 /\ den2 <> 0 <-> returns (_get_orientation s)) /\
  _get_orientation s <> Raise ValueError.
Proof.
  unfold _get_orientation. destruct (_rotation s) as [q0 q1 q2 q3].
  cbn [q_0 q_1 q_2 q_3]. cbv zeta.
  destruct (Req_dec_T (1 - 2 * (q1 * q1 + q2 * q2)) 0) as [E1 | E1].
  - rewrite (truediv_raises _ _ E1). cbn [bind].
    split; [tauto |]. split; [| discriminate].
    split; [tauto | intros [r Hr]; discriminate].
  - rewrite (truediv_ok _ _ E1). cbn [bind].
    destruct (Req_dec_T (1 - 2 * (q2 * q2 + q3 * q3)) 0) as [E2 | E2].
    + rewrite (truediv_raises _ _ E2). cbn [bind].
      split; [tauto |]. split; [| discriminate].
      split; [tauto | intros [r Hr]; discriminate].
    + rewrite (truediv_ok _ _ E2). cbn [bind].
      split; [split; [tauto | discriminate] |].
      split; [| discriminate].
      split; [intros _; eexists; reflexivity | tauto].
Qed.

(** X12: [_get_orientation], and so the [theta] and [phi] getters, raises
    [ZeroDivisionError] exactly when [1 - 2*(q1*q1 + q2*q2)] or
    [1 - 2*(q2*q2 + q3*q3)] is zero for the stored rotation
    [(q0, q1, q2, q3)], and returns otherwise; it raises nothing else. *)
Theorem _get_orientation_raises_iff (s : t) :
  let q := _rotation s in
  let den1 := 1 - 2 * (q_1 q * q_1 q + q_2 q * q_2 q) in
  let den2 := 1 - 2 * (q_2 q * q_2 q + q_3 q * q_3 q) in
  (den1 = 0 \/ den2 = 0 <-> _get_orientation s = Raise ZeroDivisionError) /\
  (den1 <> 0 /\ den2 <> 0 <-> returns (_get_orientation s)) /\
  _get_orientation s <> Raise ValueError.
Proof. intros; now apply get_orientation_cases. Qed.

Lemma _get_orientation_raises_iff_witness :
  returns (_get_orientation (__init__ 0 0 1 3)).
Proof.
  destruct (_get_orientation_raises_iff (__init__ 0 0 1 3)) as [_ [H _]].
  cbv zeta in H. apply H.
  rewrite __init__rotation. cbn [q_1 q_2 q_3].
  replace (0.5 * (0 * (PI / 180))) with 0 by lra.
  rewrite sin_0, cos_0. split; lra.
Defined.

(** The two quotients of [_get_orientation] on a constructed trackball. *)
Lemma __init__orientation_terms th ph z d :
  let q := _rotation (__init__ th ph z d) in
  2 * (q_0 q * q_1 q + q_2 q * q_3 q) = sin (ph * (PI / 180)) /\
  1 - 2 * (q_1 q * q_1 q + q_2 q * q_2 q) = cos (ph * (PI / 180)) /\
  2 * (q_0 q * q_3 q + q_1 q * q_2 q) = sin (th * (PI / 180)) /\
  1 - 2 * (q_2 q * q_2 q + q_3 q * q_3 q) = - cos (th * (PI / 180)).
Proof.
  cbv zeta. rewrite __init__rotation. cbn [q_0 q_1 q_2 q_3].
  replace (th * (PI / 180)) with (2 * (0.5 * (th * (PI / 180)))) by lra.
  replace (ph * (PI / 180)) with (2 * (0.5 * (ph * (PI / 180)))) by lra.
  replace (0.5 * (2 * (0.5 * (th * (PI / 180)))))
    with (0.5 * (th * (PI / 180))) by lra.
  replace (0.5 * (2 * (0.5 * (ph * (PI / 180)))))
    with (0.5 * (ph * (PI / 180))) by lra.
  rewrite !sin_2a. rewrite cos_2a_sin. rewrite cos_2a_cos.
  pose proof (sin_cos_square (0.5 * (th * (PI / 180)))) as Ht.
  pose proof (sin_cos_square (0.5 * (ph * (PI / 180)))) as Hp.
  set (sx := sin (0.5 * (th * (PI / 180)))) in *.
  set (cx := cos (0.5 * (th * (PI / 180)))) in *.
  set (sz := sin (0.5 * (ph * (PI / 180)))) in *.
  set (cz := cos (0.5 * (ph * (PI / 180)))) in *.
  repeat split; nsatz.
Qed.




(** ** When the gestures raise *)

Lemma drag_to_raises_height vp s x y dx dy : vp_3 vp = 0%Z ->
  drag_to vp s x y dx dy = Raise ZeroDivisionError.
Proof.
  intros H. unfold drag_to. rewrite H.
  destruct (Z.eq_dec (vp_2 vp) 0) as [E | E].
  - rewrite E. now rewrite truediv_zero.
  - rewrite !(truediv_ok _ (IZR (vp_2 vp))) by now apply IZR_nonzero.
    cbn [bind]. now rewrite truediv_zero.
Qed.

Ltac iff_cases :=
  repeat split; intros;
  try reflexivity; try tauto; try discriminate;
  try (eexists; reflexivity);
  try match goal with
      | H : returns (Raise _) |- _ => destruct H; discriminate
      end.

(** X15: on a trackball with the constructor's ball size, [drag_to] raises
    [ZeroDivisionError] when the viewport has width or height 0 and returns
    in every other case, whatever the position and the deltas; [zoom_to]
    raises [ZeroDivisionError] when the viewport has height 0 and returns
    in every other case. *)
Theorem gestures_raise_iff (vp : Viewport) (s : t) (x y dx dy : R) :
  _TRACKBALLSIZE s = 0.8 ->
  (vp_2 vp = 0%Z \/ vp_3 vp = 0%Z <->
   drag_to vp s x y dx dy = Raise ZeroDivisionError) /\
  (vp_2 vp <> 0%Z /\ vp_3 vp <> 0%Z <-> returns (drag_to vp s x y dx dy)) /\
  (vp_3 vp = 0%Z <-> zoom_to vp s x y dx dy = Raise ZeroDivisionError) /\
  (vp_3 vp <> 0%Z <-> returns (zoom_to vp s x y dx dy)).
Proof.
  intros Hs.
  assert (D : vp_2 vp <> 0%Z -> vp_3 vp <> 0%Z ->
              returns (drag_to vp s x y dx dy)).
  { intros HW HH.
    destruct (_rotate_returns s ((x * 2 - IZR (vp_2 vp)) / IZR (vp_2 vp))
                ((y * 2 - IZR (vp_3 vp)) / IZR (vp_3 vp))
                (2 * dx / IZR (vp_2 vp)) (2 * dy / IZR (vp_3 vp)) Hs)
      as [q Hq].
    destruct (drag_to_ok vp s x y dx dy q HW HH Hq) as [s' [Hd _]].
    now exists s'. }
  destruct (Z.eq_dec (vp_2 vp) 0) as [W | W];
    destruct (Z.eq_dec (vp_3 vp) 0) as [H | H].
  - rewrite (drag_to_raises_width vp s x y dx dy W).
    rewrite (zoom_to_raises vp s x y dx dy H). iff_cases.
  - rewrite (drag_to_raises_width vp s x y dx dy W).
    rewrite (zoom_to_ok vp s x y dx dy H). iff_cases.
  - rewrite (drag_to_raises_height vp s x y dx dy H).
    rewrite (zoom_to_raises vp s x y dx dy H). iff_cases.
  - destruct (D W H) as [s' Hd]. rewrite Hd.
    rewrite (zoom_to_ok vp s x y dx dy H). iff_cases.
Qed.

Lemma gestures_raise_iff_witness :
  returns (drag_to (Build_Viewport 0 0 800 600) (__init__ 0 0 1 3)
                   10 20 3 4) /\
  zoom_to (Build_Viewport 0 0 800 0) (__init__ 0 0 1 3) 10 20 3 4
  = Raise ZeroDivisionError.
Proof.
  destruct (gestures_raise_iff (Build_Viewport 0 0 800 600)
              (__init__ 0 0 1 3) 10 20 3 4 eq_refl) as [_ [H _]].
  destruct (gestures_raise_iff (Build_Viewport 0 0 800 0)
              (__init__ 0 0 1 3) 10 20 3 4 eq_refl) as [_ [_ [H' _]]].
  split.
  - apply H. simpl. split; lia.
  - apply H'. reflexivity.
Defined.

(** ** The angle setters *)

Lemma math_fmod_360 a :
  exists v, math_fmod a 360 = Ok v /\ wrapped a v /\
    (-360 < a < 360 -> v = a).
Proof.
  rewrite math_fmod_ok by lra. eexists. split; [reflexivity |].
  unfold wrapped, Rtrunc, Rlt_b.
  assert (Ha : a = 360 * (a / 360)) by (field; lra).
  set (r := a / 360) in *.
  destruct (Rlt_dec r 0) as [N | N].
  - destruct (base_Int_part (- r)) as [B1 B2].
    rewrite opp_IZR.
    split.
    + split; [exists (- Int_part (- r))%Z; rewrite opp_IZR; lra |].
      split; intros; lra.
    + intros [L U].
      assert (E : 0%Z = Int_part (- r)) by (apply Int_part_spec; simpl; lra).
      rewrite <- E. simpl. lra.
  - destruct (base_Int_part r) as [B1 B2].
    split.
    + split; [exists (Int_part r); lra |].
      split; intros; lra.
    + intros [L U].
      assert (E : 0%Z = Int_part r) by (apply Int_part_spec; simpl; lra).
      rewrite <- E. simpl. lra.
Qed.

Lemma _set_orientation_keeps s a b :
  _zoom (_set_orientation s a b) = _zoom s /\
  _distance (_set_orientation s a b) = _distance s /\
  _count (_set_orientation s a b) = _count s /\
  _x (_set_orientation s a b) = _x s /\
  _y (_set_orientation s a b) = _y s.
Proof. repeat split. Qed.

(** X16: the [theta] and [phi] setters never raise; they store the new
    angle and the other angle as last stored, both wrapped by [math.fmod]
    to less than a full turn on the same side of zero (an angle strictly
    between -360 and 360 is stored as it is), and leave zoom, distance, pan
    and the drag counter as they were. *)
Theorem angle_setters_wrap (s : t) (a : R) :
  (exists s', theta_set s a = Ok s' /\
     wrapped a (_theta s') /\ wrapped (_phi s) (_phi s') /\
     (-360 < a < 360 -> _theta s' = a) /\
     _zoom s' = _zoom s /\ _distance s' = _distance s /\
     _count s' = _count s /\ _x s' = _x s /\ _y s' = _y s) /\
  (exists s', phi_set s a = Ok s' /\
     wrapped a (_phi s') /\ wrapped (_theta s) (_theta s') /\
     (-360 < a < 360 -> _phi s' = a) /\
     _zoom s' = _zoom s /\ _distance s' = _distance s /\
     _count s' = _count s /\ _x s' = _x s /\ _y s' = _y s).
Proof.
  destruct (math_fmod_360 a) as [va [Ha [Wa Ia]]].
  destruct (math_fmod_360 (_phi s)) as [vp [Hp [Wp _]]].
  destruct (math_fmod_360 (_theta s)) as [vt [Ht [Wt _]]].
  split.
  - unfold theta_set. rewrite Ha, Hp. cbn [bind].
    eexists. split; [reflexivity |].
    split; [exact Wa |]. split; [exact Wp |]. split; [exact Ia |].
    apply _set_orientation_keeps.
  - unfold phi_set. rewrite Ht, Ha. cbn [bind].
    eexists. split; [reflexivity |].
    split; [exact Wa |]. split; [exact Wt |]. split; [exact Ia |].
    apply _set_orientation_keeps.
Qed.

Lemma angle_setters_wrap_witness :
  exists s', theta_set (__init__ 0 0 1 3) 45 = Ok s' /\ _theta s' = 45.
Proof.
  destruct (angle_setters_wrap (__init__ 0 0 1 3) 45)
    as [[s' [Hs [_ [_ [H _]]]]] _].
  exists s'. split; [exact Hs |]. apply H. lra.
Defined.

Lemma _get_orientation_ext s1 s2 :
  _rotation s1 = _rotation s2 -> _get_orientation s1 = _get_orientation s2.
Proof. unfold _get_orientation. now intros ->. Qed.

(** The angles read back from the rotation built from [th] and [ph]. *)
Lemma _get_orientation_of_angles s th ph :
  _rotation s = _rotation (__init__ th ph 1 3) ->
  -90 < th < 90 -> -90 < ph < 90 ->
  _get_orientation s = Ok (th, ph).
Proof.
  intros Hr Hth Hph.
  rewrite (_get_orientation_ext s (__init__ th ph 1 3) Hr).
  pose proof PI_RGT_0 as Hpi.
  assert (Rt : - (PI / 2) < th * (PI / 180) < PI / 2) by (split; nra).
  assert (Rp : - (PI / 2) < ph * (PI / 180) < PI / 2) by (split; nra).
  assert (Ct : 0 < cos (th * (PI / 180))) by (apply cos_gt_0; lra).
  assert (Cp : 0 < cos (ph * (PI / 180))) by (apply cos_gt_0; lra).
  destruct (__init__orientation_terms th ph 1 3) as [N1 [D1 [N2 D2]]].
  cbv zeta in N1, D1, N2, D2.
  unfold _get_orientation.
  destruct (_rotation (__init__ th ph 1 3)) as [q0 q1 q2 q3].
  cbn [q_0 q_1 q_2 q_3] in N1, D1, N2, D2.
  rewrite N1, D1, N2, D2.
  rewrite !truediv_ok by lra. cbn [bind].
  replace (sin (ph * (PI / 180)) / cos (ph * (PI / 180)))
    with (tan (ph * (PI / 180))) by reflexivity.
  replace (sin (th * (PI / 180)) / - cos (th * (PI / 180)))
    with (- tan (th * (PI / 180))) by (unfold tan; field; lra).
  rewrite atan_opp, !atan_tan by assumption.
  f_equal. f_equal; field; lra.
Qed.



(** ** Pan and distance *)

Lemma pan_to_fields s x y dx dy :
  _x (pan_to s x y dx dy) = _x s + dx * 0.1 /\
  _y (pan_to s x y dx dy) = _y s + dy * 0.1 /\
  _rotation (pan_to s x y dx dy) = _rotation s /\
  _matrix (pan_to s x y dx dy) = _matrix s /\
  _zoom (pan_to s x y dx dy) = _zoom s /\
  _distance (pan_to s x y dx dy) = _distance s /\
  _count (pan_to s x y dx dy) = _count s.
Proof. repeat split. Qed.

(** X18: pan gestures never raise and add up: after any sequence of them
    the pan offset has moved by one tenth of the sum of the deltas in each
    direction, without any bound, and rotation, zoom and distance are as
    before. *)
Theorem pan_accumulates (gs : list (R * R)) (s : t) :
  exists s', run (pan_gestures gs) s = Ok s' /\
    _x s' = _x s + 0.1 * Rsum (map fst gs) /\
    _y s' = _y s + 0.1 * Rsum (map snd gs) /\
    _rotation s' = _rotation s /\ _zoom s' = _zoom s /\
    _distance s' = _distance s.
Proof.
  revert s. induction gs as [| [dx dy] gs IH]; intros s.
  - exists s. simpl. repeat split; lra.
  - destruct (IH (pan_to s 0 0 dx dy)) as [s' [Hr [Hx [Hy [Hq [Hz Hd]]]]]].
    exists s'. cbn [pan_gestures map run step bind fst snd].
    split; [exact Hr |].
    rewrite Hx, Hy, Hq, Hz, Hd. unfold Rsum. simpl. repeat split; lra.
Qed.

(** The [distance] setter stores the larger of 1 and its argument, and
    setting the distance to what the property returns changes nothing. *)
Lemma distance_set_max (s : t) (d : R) :
  distance (distance_set s d) = Rmax 1 d /\
  zoom (distance_set s d) = zoom s /\
  _rotation (distance_set s d) = _rotation s /\
  distance_set (distance_set s d) (distance (distance_set s d))
  = distance_set s d.
Proof.
  unfold distance_set, distance, zoom, Rlt_b; simpl.
  destruct (Rlt_dec d 1) as [L | L]; simpl.
  - rewrite Rmax_left by lra.
    destruct (Rlt_dec 1 1); [lra |]. repeat split.
  - rewrite Rmax_right by lra.
    destruct (Rlt_dec d 1); [contradiction |]. repeat split.
Qed.

Lemma step_establishes_range o s s' :
  step o s = Ok s' ->
  (writes_zoom o = true -> zoom_in_range s') /\
  (writes_distance o = true -> distance_in_range s').
Proof.
  intros H. split; intros W.
  - destruct o; try discriminate; simpl in H.
    + unfold zoom_to in H. bind_inv H. ok_inv H. apply zoom_set_in_range.
    + ok_inv H. apply zoom_set_in_range.
  - destruct o; try discriminate; simpl in H.
    ok_inv H. apply distance_set_in_range.
Qed.

Lemma run_keeps_each_range os : forall s s',
  run os s = Ok s' ->
  (zoom_in_range s -> zoom_in_range s') /\
  (distance_in_range s -> distance_in_range s').
Proof.
  induction os as [| o os IH]; simpl; intros s s' H.
  - ok_inv H. tauto.
  - bind_inv H. destruct (step_keeps_range o s a Ha) as [Hz Hd].
    destruct (IH a s' H) as [Hz' Hd']. tauto.
Qed.

(** X19: once the zoom has been written by its setter or by a zoom gesture
    it is between 0.25 and 10 after every later operation, and once the
    distance has been written by its setter it is at least 1 after every
    later operation, whatever the constructor was given. *)
Theorem range_once_set (os1 os2 : list op) (o : op) (s s' : t) :
  run (os1 ++ o :: os2) s = Ok s' ->
  (writes_zoom o = true -> 0.25 <= zoom s' <= 10) /\
  (writes_distance o = true -> 1 <= distance s').
Proof.
  rewrite run_app. intros H. bind_inv H. cbn [run] in H. bind_inv H.
  destruct (step_establishes_range o a a0 Ha0) as [Ez Ed].
  destruct (run_keeps_each_range os2 a0 s' H) as [Kz Kd].
  split; intros W; [apply Kz, Ez, W | apply Kd, Ed, W].
Qed.

Lemma range_once_set_witness :
  0.25 <= zoom (pan_to (zoom_set (__init__ 0 0 100 0) 50) 0 0 1 1) <= 10 /\
  1 <= distance (pan_to (distance_set (__init__ 0 0 100 0) (-2)) 0 0 1 1).
Proof.
  split.
  - apply (range_once_set [] [Pan_to 0 0 1 1] (Set_zoom 50)
             (__init__ 0 0 100 0)); reflexivity.
  - apply (range_once_set [] [Pan_to 0 0 1 1] (Set_distance (-2))
             (__init__ 0 0 100 0)); reflexivity.
Defined.

(** ** The projection *)

(** X20: the height [_project] returns for the ball of radius 0.8 is
    positive and at most the radius, at every point, and depends on the
    point only through its distance from the centre. *)
Theorem _project_bounds (x y : R) :
  (exists z, _project 0.8 x y = Ok z /\ 0 < z <= 0.8) /\
  (forall x' y', x' * x' + y' * y' = x * x + y * y ->
     _project 0.8 x' y' = _project 0.8 x y).
Proof.
  split.
  - pose proof (sqrt_pos (x * x + y * y)) as Hd.
    pose proof M_SQRT1_2_bounds as Hk. pose proof M_SQRT2_bounds as Hm.
    destruct (Rlt_dec (sqrt (x * x + y * y)) (0.8 * M_SQRT1_2)) as [L | L].
    + rewrite (_project_inside x y L). eexists. split; [reflexivity |].
      set (d := sqrt (x * x + y * y)) in *. split.
      * apply sqrt_lt_R0. nra.
      * apply Rle_trans with (sqrt (0.8 * 0.8));
          [apply sqrt_le_1_alt; nra | rewrite sqrt_square; lra].
    + rewrite (_project_outside x y L). eexists. split; [reflexivity |].
      set (d := sqrt (x * x + y * y)) in *.
      assert (Hdp : 0.56 < d) by lra.
      assert (HT : 0 < 0.8 / M_SQRT2 * (0.8 / M_SQRT2) < 0.33)
        by (unfold M_SQRT2; lra).
      set (T := 0.8 / M_SQRT2 * (0.8 / M_SQRT2)) in *.
      assert (Hi : 0 < / d < 2).
      { split; [apply Rinv_0_lt_compat; lra |].
        replace 2 with (/ 0.5) by lra.
        apply Rinv_lt_contravar; lra. }
      unfold Rdiv. nra.
  - intros x' y' E. unfold _project. now rewrite E.
Qed.

Lemma _project_bounds_witness : _project 0.8 (-3) 4 = _project 0.8 4 3.
Proof.
  destruct (_project_bounds 4 3) as [_ H]. apply H. lra.
Defined.

(** ** [push] and [pop] *)





(** ** Reading and dragging again *)

(** X23: the angle getters only refresh the two stored angles: when one
    returns, rotation, matrix, zoom, distance, pan and counter are as
    before, both getters return the same pair of angles whichever is read,
    and reading again returns the same value and changes nothing more. *)
Theorem getters_only_refresh_angles (s s1 : t) (v : R) :
  theta s = Ok (v, s1) ->
  _rotation s1 = _rotation s /\ _matrix s1 = _matrix s /\
  _zoom s1 = _zoom s /\ _distance s1 = _distance s /\
  _count s1 = _count s /\ _x s1 = _x s /\ _y s1 = _y s /\
  v = _theta s1 /\
  phi s = Ok (_phi s1, s1) /\
  theta s1 = Ok (v, s1) /\ phi s1 = Ok (_phi s1, s1).
Proof.
  unfold theta, phi. intros H.
  destruct (_get_orientation s) as [[a b] | e] eqn:G; [| discriminate].
  cbn [bind fst snd] in *. apply Ok_inj in H.
  injection H as Hv Hs. subst v s1.
  rewrite (_get_orientation_ext
             (with_phi (with_theta s a) b) s eq_refl), G.
  cbn [bind fst snd]. repeat split.
Qed.

Lemma getters_only_refresh_angles_witness :
  phi (__init__ 30 45 1 3) = Ok (45, __init__ 30 45 1 3).
Proof.
  assert (G : _get_orientation (__init__ 30 45 1 3) = Ok (30, 45))
    by (apply _get_orientation_of_angles; [reflexivity | lra | lra]).
  assert (T : theta (__init__ 30 45 1 3) = Ok (30, __init__ 30 45 1 3))
    by (unfold theta; rewrite G; reflexivity).
  destruct (getters_only_refresh_angles _ _ _ T)
    as [_ [_ [_ [_ [_ [_ [_ [_ [P _]]]]]]]]].
  exact P.
Defined.

(** X24: once a drag has completed, drags with zero deltas leave the
    rotation and its matrix as they are, as long as the counter does not
    pass the renormalization threshold on them. *)
Theorem zero_delta_drag_after_drag
    (vp vp' : Viewport) (s s1 : t) (x y dx dy x' y' : R) :
  drag_to vp s x y dx dy = Ok s1 ->
  vp_2 vp' <> 0%Z -> vp_3 vp' <> 0%Z ->
  (_count s1 + 1 <= _RENORMCOUNT s1)%Z ->
  exists s2, drag_to vp' s1 x' y' 0 0 = Ok s2 /\
    _rotation s2 = _rotation s1 /\ _matrix s2 = _matrix s1 /\
    _count s2 = (_count s1 + 1)%Z.
Proof.
  intros H1 HW HH Hc.
  destruct (drag_to_matrix _ _ _ _ _ _ _ H1) as [Hm Hz].
  destruct (zero_delta_drag_ok vp' s1 x' y' HW HH) as [s2 [H2 [Hle _]]].
  destruct (Hle Hc) as [Hr Hn].
  rewrite (set_q_2_same _ Hz) in Hr.
  exists s2. split; [exact H2 |]. split; [exact Hr |]. split; [| exact Hn].
  destruct (drag_to_matrix _ _ _ _ _ _ _ H2) as [Hm2 _].
  rewrite Hm2, Hm, Hr. reflexivity.
Qed.

Lemma zero_delta_drag_after_drag_witness :
  exists s1 s2,
    drag_to (Build_Viewport 0 0 2 2) (__init__ 30 40 1 3) 2 1 (-1) 2 = Ok s1 /\
    drag_to (Build_Viewport 0 0 800 600) s1 5 5 0 0 = Ok s2 /\
    _rotation s2 = _rotation s1.
Proof.
  destruct (drag_to_counter (Build_Viewport 0 0 2 2) (__init__ 30 40 1 3)
              2 1 (-1) 2) as [s1 [H1 [[_ Hr] [Hle _]]]];
    [simpl; lia | simpl; lia | apply __init__constants |].
  destruct (zero_delta_drag_after_drag (Build_Viewport 0 0 2 2)
              (Build_Viewport 0 0 800 600) (__init__ 30 40 1 3) s1
              2 1 (-1) 2 5 5 H1) as [s2 [H2 [E _]]].
  - simpl; lia.
  - simpl; lia.
  - rewrite Hr, Hle; simpl; lia.
  - exists s1, s2. auto.
Defined.

(** ** The drag counter and what renormalization gives *)








